(** * starcli.layouts: a shallow embedding of [src/starcli/layouts.py]

    The module renders repository records with [rich] (list, table and grid
    layouts) and aggregates star dates into a cumulative series that
    [terminalplot] draws.  The development has four parts:
    - [Py]: the few Python built-ins the module calls (str, int and float
      arithmetic, [round], [math.ceil], float [repr], dict indexing, dates
      and timedeltas), with the exceptions they raise;
    - [Rich]: the renderables the layouts build and hand to the console;
    - the functions of [layouts.py], under their own names, over a store
      of records and a console;
    - the properties of those functions. *)

From Stdlib Require Import ZArith NArith List Lia Bool.
From Stdlib Require Import Strings.String Strings.Ascii.
From Stdlib Require Import Floats.SpecFloat DecimalPos DecimalN.
From stdpp Require Import gmap strings list functions.

Local Open Scope Z_scope.

(* ===================================================================== *)
(** * Python built-ins                                                    *)
(* ===================================================================== *)

Module Py.

(** Exceptions the modelled code can raise. *)
Inductive exn :=
  | KeyError (k : string)
  | TypeError
  | AttributeError
  | IndexError
  | ZeroDivisionError
  | OverflowError
  | ValueError.

(** A call either returns or raises. *)
Inductive result (A : Type) :=
  | Ok (a : A)
  | Raise (e : exn).
Arguments Ok {A} a.
Arguments Raise {A} e.

Definition bind {A B} (k : A -> result B) (r : result A) : result B :=
  match r with
  | Ok a => k a
  | Raise e => Raise e
  end.

#[global] Instance result_ret : MRet result := @Ok.
#[global] Instance result_bind : MBind result := @bind.

(** ** str: a sequence of Unicode code points *)

Abbreviation str := (list N).

(** Code points of a literal written in this file (its bytes are UTF-8). *)
Fixpoint utf8_decode (bs : list N) (acc : N) (k : nat) : str :=
  match bs with
  | [] => []
  | b :: bs' =>
      match k with
      | S k' =>
          let acc' := (acc * 64 + b mod 64)%N in
          match k' with
          | O => acc' :: utf8_decode bs' 0%N O
          | S _ => utf8_decode bs' acc' k'
          end
      | O =>
          if (b <? 128)%N then b :: utf8_decode bs' 0%N O
          else if (b <? 224)%N then utf8_decode bs' (b mod 32)%N 1%nat
          else if (b <? 240)%N then utf8_decode bs' (b mod 16)%N 2%nat
          else utf8_decode bs' (b mod 8)%N 3%nat
      end
  end.

Definition lit (s : string) : str :=
  utf8_decode (map N_of_ascii (list_ascii_of_string s)) 0%N O.

Definition str_eqb (a b : str) : bool := bool_decide (a = b).

(** [sub in s]: substring test. *)
Fixpoint startswith (s p : str) : bool :=
  match p, s with
  | [], _ => true
  | _ :: _, [] => false
  | c :: p', d :: s' => (c =? d)%N && startswith s' p'
  end.

Fixpoint contains (s sub : str) : bool :=
  startswith s sub ||
  match s with
  | [] => false
  | _ :: s' => contains s' sub
  end.

Fixpoint endswith_aux (rs rp : str) : bool :=
  match rp, rs with
  | [], _ => true
  | _ :: _, [] => false
  | c :: p', d :: s' => (c =? d)%N && endswith_aux s' p'
  end.

Definition endswith (s p : str) : bool := endswith_aux (rev s) (rev p).

(** [s.replace(old, new)] for a non-empty [old]: leftmost occurrences,
    not overlapping.  [fuel] bounds the characters still to scan. *)
Fixpoint replace_go (fuel : nat) (s old new : str) : str :=
  match fuel with
  | O => s
  | S fuel' =>
      match s with
      | [] => []
      | c :: s' =>
          if startswith s old
          then new ++ replace_go fuel' (drop (length old) s) old new
          else c :: replace_go fuel' s' old new
      end
  end.

Definition replace (s old new : str) : str :=
  replace_go (length s) s old new.

(** Characters [str.strip()] removes: those for which [str.isspace] holds. *)
Definition isspace (c : N) : bool :=
  ((9 <=? c) && (c <=? 13) || (28 <=? c) && (c <=? 32) || (c =? 133)
   || (c =? 160) || (c =? 5760) || (8192 <=? c) && (c <=? 8202)
   || (c =? 8232) || (c =? 8233) || (c =? 8239) || (c =? 8287)
   || (c =? 12288))%N.

Fixpoint lstrip (s : str) : str :=
  match s with
  | [] => []
  | c :: s' => if isspace c then lstrip s' else s
  end.

Definition strip (s : str) : str := rev (lstrip (rev (lstrip s))).

(** ** int: unbounded integers, and [str(int)] *)

Definition digit_char (d : N) : N := (48 + d)%N.

Fixpoint uint_chars (u : Decimal.uint) : str :=
  match u with
  | Decimal.Nil => []
  | Decimal.D0 u' => digit_char 0 :: uint_chars u'
  | Decimal.D1 u' => digit_char 1 :: uint_chars u'
  | Decimal.D2 u' => digit_char 2 :: uint_chars u'
  | Decimal.D3 u' => digit_char 3 :: uint_chars u'
  | Decimal.D4 u' => digit_char 4 :: uint_chars u'
  | Decimal.D5 u' => digit_char 5 :: uint_chars u'
  | Decimal.D6 u' => digit_char 6 :: uint_chars u'
  | Decimal.D7 u' => digit_char 7 :: uint_chars u'
  | Decimal.D8 u' => digit_char 8 :: uint_chars u'
  | Decimal.D9 u' => digit_char 9 :: uint_chars u'
  end.

Definition str_of_N (n : N) : str := uint_chars (N.to_uint n).

Definition str_of_int (n : Z) : str :=
  match n with
  | Zneg p => lit "-" ++ str_of_N (Npos p)
  | _ => str_of_N (Z.to_N n)
  end.

(** ** Values stored in a repository record *)

Inductive value :=
  | VNone
  | VInt (n : Z)
  | VStr (s : str).

#[global] Instance value_eq_dec : EqDecision value.
Proof. solve_decision. Defined.

(** [str(v)], which is also what an f-string field [{v}] prints. *)
Definition str_of (v : value) : str :=
  match v with
  | VNone => lit "None"
  | VInt n => str_of_int n
  | VStr s => s
  end.

(** Truth value of [v] in a condition. *)
Definition truthy (v : value) : bool :=
  match v with
  | VNone => false
  | VInt n => negb (n =? 0)
  | VStr s => negb (str_eqb s [])
  end.

(** [v != w]; an int never equals a str. *)
Definition ne (v w : value) : bool := negb (bool_decide (v = w)).

(** A record is a dict with str keys.  The keys the module uses are
    ASCII literals, kept as [string]. *)
Abbreviation dict := (gmap string value).

(** [d[k]] *)
Definition getitem (d : dict) (k : string) : result value :=
  match d !! k with
  | Some v => Ok v
  | None => Raise (KeyError k)
  end.

(** [k in d.keys()] *)
Definition has_key (d : dict) (k : string) : bool :=
  bool_decide (is_Some (d !! k)).

(** ** float: IEEE 754 binary64

    Floats are [spec_float]s with the binary64 parameters; the
    operations are those of [SpecFloat], which round to nearest, ties to
    even. *)

Definition prec : Z := 53.
Definition emax : Z := 1024.

(** [float(n)]: the nearest double; too large an int raises. *)
Definition float_of_int (n : Z) : result spec_float :=
  match binary_normalize prec emax n 0 false with
  | S754_infinity _ => Raise OverflowError
  | x => Ok x
  end.

(** A literal such as [100.0]. *)
Definition float_lit (n : Z) : spec_float := binary_normalize prec emax n 0 false.

(** [x / y] on floats *)
Definition float_div (x y : spec_float) : result spec_float :=
  match y with
  | S754_zero _ => Raise ZeroDivisionError
  | _ => Ok (SFdiv prec emax x y)
  end.

(** [n / y] for an int [n] and a float [y] *)
Definition int_truediv_float (n : Z) (y : spec_float) : result spec_float :=
  x ← float_of_int n; float_div x y.

(** Nearest integer to [a / b] for [0 < b], ties to the even one. *)
Definition div_half_even (a b : Z) : Z :=
  let q := a / b in
  match 2 * (a mod b) ?= b with
  | Lt => q
  | Gt => q + 1
  | Eq => if Z.even q then q else q + 1
  end.

(** The double nearest to [d * 10^k], for [d > 0]. *)
Definition nearest_decimal (d : positive) (k : Z) : spec_float :=
  if 0 <=? k then binary_normalize prec emax (Zpos d * 10 ^ k) 0 false
  else SFdiv prec emax (S754_finite false d 0)
                       (S754_finite false (Z.to_pos (10 ^ (- k))) 0).

(** [round(x, 1)]: the exact value of [x] is rounded to one decimal,
    ties to even, and the double nearest to that decimal is returned.
    A double with a non-negative exponent is an integer, and is its own
    rounding. *)
Definition round1 (x : spec_float) : spec_float :=
  match x with
  | S754_finite s m e =>
      if 0 <=? e then x
      else
        match div_half_even (10 * Zpos m) (2 ^ (- e)) with
        | Zpos t => SFdiv prec emax (S754_finite s t 0) (S754_finite false 10 0)
        | _ => S754_zero s
        end
  | _ => x
  end.

(** [math.ceil(x)] *)
Definition ceil (x : spec_float) : result Z :=
  match x with
  | S754_zero _ => Ok 0
  | S754_finite s m e =>
      let v := if s then Zneg m else Zpos m in
      Ok (if 0 <=? e then v * 2 ^ e else - ((- v) / 2 ^ (- e)))
  | S754_infinity _ => Raise OverflowError
  | S754_nan => Raise ValueError
  end.

(** *** [repr] of a float: the shortest digits that read back as the
    same double, printed in fixed notation when the decimal point falls
    in (-4, 16], in exponent notation otherwise. *)

(** Least [j] with [den <= num * 10^j]. *)
Fixpoint scale_up (fuel : nat) (num den j : Z) : Z :=
  match fuel with
  | O => j
  | S fuel' => if den <=? num then j else scale_up fuel' (num * 10) den (j + 1)
  end.

(** [p] with [10^(p-1) <= num/den < 10^p]. *)
Definition decimal_point (num den : Z) : Z :=
  let j := scale_up 400 num den 0 in
  Z.of_nat (length (str_of_N (Z.to_N (num * 10 ^ j / den)))) - j.

(** [floor (num / den / 10^k)] *)
Definition scaled_floor (num den k : Z) : Z :=
  if 0 <=? k then num / (den * 10 ^ k) else num * 10 ^ (- k) / den.

(** Sign of [|x - lo*10^k| - |hi*10^k - x|] for [x = num/den], [hi = lo+1]. *)
Definition closer (num den k lo : Z) : comparison :=
  if 0 <=? k
  then 2 * num ?= (2 * lo + 1) * 10 ^ k * den
  else 2 * num * 10 ^ (- k) ?= (2 * lo + 1) * den.

#[global] Instance spec_float_eq_dec : EqDecision spec_float.
Proof. solve_decision. Defined.

(** The shortest [(digits, k)], tried with [n], [n+1], ... significant
    digits, such that [digits * 10^k] reads back as [x]. *)
Fixpoint shortest (fuel : nat) (x : spec_float) (num den p n : Z) : Z * Z :=
  match fuel with
  | O => (0, 0)
  | S fuel' =>
      let k := p - n in
      let lo := scaled_floor num den k in
      let hi := lo + 1 in
      let ok d := match d with
                  | Zpos d' => bool_decide (nearest_decimal d' k = x)
                  | _ => false
                  end in
      match ok lo, ok hi with
      | true, true =>
          match closer num den k lo with
          | Lt => (lo, k)
          | Gt => (hi, k)
          | Eq => if Z.even lo then (lo, k) else (hi, k)
          end
      | true, false => (lo, k)
      | false, true => (hi, k)
      | false, false => shortest fuel' x num den p (n + 1)
      end
  end.

Fixpoint strip_zeros (fuel : nat) (d k : Z) : Z * Z :=
  match fuel with
  | O => (d, k)
  | S fuel' => if (d mod 10 =? 0) && negb (d =? 0)
               then strip_zeros fuel' (d / 10) (k + 1) else (d, k)
  end.

Definition zeros (n : Z) : str := repeat (digit_char 0) (Z.to_nat n).

Definition format_digits (digits : str) (decpt : Z) : str :=
  let nd := Z.of_nat (length digits) in
  if (decpt <=? -4) || (16 <? decpt) then
    let e := decpt - 1 in
    take 1 digits
    ++ (if 1 <? nd then lit "." ++ drop 1 digits else [])
    ++ lit "e" ++ (if e <? 0 then lit "-" else lit "+")
    ++ (if Z.abs e <? 10 then zeros 1 else []) ++ str_of_int (Z.abs e)
  else if decpt <=? 0 then
    lit "0." ++ zeros (- decpt) ++ digits
  else if decpt <? nd then
    take (Z.to_nat decpt) digits ++ lit "." ++ drop (Z.to_nat decpt) digits
  else
    digits ++ zeros (decpt - nd) ++ lit ".0".

(** [str(x)] for a float [x] *)
Definition str_of_float (x : spec_float) : str :=
  match x with
  | S754_zero s => (if s then lit "-" else []) ++ lit "0.0"
  | S754_infinity s => (if s then lit "-" else []) ++ lit "inf"
  | S754_nan => lit "nan"
  | S754_finite s m e =>
      let num := if 0 <=? e then Zpos m * 2 ^ e else Zpos m in
      let den := if 0 <=? e then 1 else 2 ^ (- e) in
      let p := decimal_point num den in
      let '(d, k) := shortest 17 (S754_finite false m e) num den p 1 in
      let '(d, k) := strip_zeros 20 d k in
      let digits := str_of_int d in
      (if s then lit "-" else [])
      ++ format_digits digits (Z.of_nat (length digits) + k)
  end.

(** ** Sequences *)

(** [range(a, b)] *)
Definition range (a b : Z) : list Z :=
  map (λ k, a + Z.of_nat k) (seq 0 (Z.to_nat (b - a))).

(** [l[i]] for [0 <= i]; out of range raises. *)
Definition index {A} (l : list A) (i : Z) : result A :=
  if i <? 0 then Raise IndexError
  else match l !! Z.to_nat i with
       | Some a => Ok a
       | None => Raise IndexError
       end.

(** [for x in xs: acc = body(acc, x)], stopping at the first exception. *)
Fixpoint for_each {A B} (body : A → B → result A) (acc : A) (xs : list B)
  : result A :=
  match xs with
  | [] => Ok acc
  | x :: xs' => acc' ← body acc x; for_each body acc' xs'
  end.

(** ** datetime.date and datetime.timedelta

    A date is its proleptic Gregorian ordinal (0001-01-01 is day 1,
    9999-12-31 is day [MAXORDINAL]); a timedelta is its length in
    microseconds.  Results outside the types' ranges raise, as in
    [datetime]. *)

Definition MAXORDINAL : Z := 3652059.
Definition US_PER_DAY : Z := 86400000000.
Definition MAX_DELTA_DAYS : Z := 999999999.

Definition is_leap (y : Z) : bool :=
  (y mod 4 =? 0) && (negb (y mod 100 =? 0) || (y mod 400 =? 0)).

Definition days_before_year (y : Z) : Z :=
  let y1 := y - 1 in y1 * 365 + y1 / 4 - y1 / 100 + y1 / 400.

Definition days_in_month (y m : Z) : Z :=
  if m =? 2 then (if is_leap y then 29 else 28)
  else if (m =? 4) || (m =? 6) || (m =? 9) || (m =? 11) then 30
  else 31.

Definition days_before_month (y m : Z) : Z :=
  foldr Z.add 0 (map (days_in_month y) (range 1 m)).

(** [date(y, m, d).toordinal()] *)
Definition date (y m d : Z) : Z :=
  days_before_year y + days_before_month y m + d.

Definition valid_date (d : Z) : Prop := 1 ≤ d ≤ MAXORDINAL.

(** [.days] of a timedelta *)
Definition td_days (td : Z) : Z := td / US_PER_DAY.

(** [timedelta(microseconds=us)] *)
Definition timedelta (us : Z) : result Z :=
  if (td_days us <? - MAX_DELTA_DAYS) || (MAX_DELTA_DAYS <? td_days us)
  then Raise OverflowError else Ok us.

(** [a - b] on dates *)
Definition date_sub (a b : Z) : result Z := timedelta ((a - b) * US_PER_DAY).

(** [_divide_and_round(a, b)]: nearest integer to [a / b], ties to even *)
Definition divide_and_round (a b : Z) : Z :=
  let q := a / b in
  let r := 2 * (a mod b) in
  let greater_than_half := if 0 <? b then b <? r else r <? b in
  if greater_than_half || (r =? b) && (q mod 2 =? 1) then q + 1 else q.

(** [td / n] for an int [n] *)
Definition td_truediv (td n : Z) : result Z :=
  if n =? 0 then Raise ZeroDivisionError
  else timedelta (divide_and_round td n).

(** [n * td] for an int [n] *)
Definition td_mul (n td : Z) : result Z := timedelta (n * td).

(** [d + td]: only the whole days of [td] count. *)
Definition date_add (d td : Z) : result Z :=
  let o := d + td_days td in
  if (0 <? o) && (o <=? MAXORDINAL) then Ok o else Raise OverflowError.

End Py.




(* ===================================================================== *)
(** * The rendering toolkit, as far as the layouts call it                *)
(* ===================================================================== *)

Module Rich.
Import Py.

(** [rich.text.Text]: the text, its base style, its overflow method and
    the styles laid over the whole of it by [stylize]. *)
Record Text := mkText {
  plain : str;
  style : str;
  overflow : option str;
  spans : list str
}.

(** [Text(v, style=sty)]; [Text] takes a str. *)
Definition text (v : value) (sty : str) : result Text :=
  match v with
  | VStr s => Ok (mkText s sty None [])
  | _ => Raise TypeError
  end.

Definition text_of (s : str) (sty : str) : Text := mkText s sty None [].

(** [t.stylize(sty)] *)
Definition stylize (t : Text) (sty : str) : Text :=
  mkText (plain t) (style t) (overflow t) (spans t ++ [sty]).

(** What a render group of the list layout yields. *)
Inductive renderable :=
  | Rule (sty : str)                      (* [Rule(style=sty)] *)
  | Markup (s : str)                      (* a str, printed with console markup *)
  | Plain (t : Text)                      (* a [Text] *)
  | Grid (left right : Text).             (* [Table.grid(padding=(0, 1))], expanded,
                                             one row, second column right-justified
                                             and not wrapped *)

(** A row of the table layout: name, language, description, stats. *)
Record table_row := mkRow {
  cell_name : value;
  cell_language : value;
  cell_description : value;
  cell_stats : str
}.

(** What is handed to [console.print]. *)
Inductive printed :=
  | Column (width : Z) (body : list renderable)
      (* [Align.center(group, width=width, pad=False)] *)
  | Table (header : list (str * str)) (rows : list table_row)
      (* [Table(leading=1)] with its (header, style) columns *)
  | Columns (width : Z) (panels : list (list Text)).
      (* [Columns(panels, width=width, expand=True)]; a panel is an expanded
         [Panel] around the [Text.assemble] of its parts *)

(** Modelled from the spec: [rich]'s width table and [Text.truncate] are
    not part of the repository.  The spec counts a description "in
    display-width units, not raw character count, because East-Asian wide
    characters must count as two columns", and when that length "exceeds
    90 units" has the renderer "truncate and append an ellipsis marker".
    [wide] tells which characters the toolkit takes as wide. *)
Definition cell_width (wide : N → bool) (c : N) : Z := if wide c then 2 else 1.

(** Modelled from the spec: the display length of a str. *)
Definition cell_len (wide : N → bool) (s : str) : Z :=
  foldr (λ c n, cell_width wide c + n) 0 s.

(** Modelled from the spec: the longest prefix of [s] that fits in
    [width] cells (a wide character is kept whole or dropped). *)
Fixpoint fit (wide : N → bool) (width : Z) (s : str) : str :=
  match s with
  | [] => []
  | c :: s' =>
      if cell_width wide c <=? width
      then c :: fit wide (width - cell_width wide c) s'
      else []
  end.

Definition ELLIPSIS : N := 8230%N.

(** Modelled from the spec: [t.truncate(max_width, overflow="ellipsis")]
    leaves a text of at most [max_width] cells alone, and cuts a longer
    one so that it ends with the ellipsis marker within [max_width]
    cells. *)
Definition truncate (wide : N → bool) (max_width : Z) (t : Text) : Text :=
  if max_width <? cell_len wide (plain t)
  then mkText (fit wide (max_width - 1) (plain t) ++ [ELLIPSIS])
              (style t) (overflow t) (spans t)
  else t.

End Rich.

(* ===================================================================== *)
(** * starcli.layouts                                                     *)
(* ===================================================================== *)

Import Py Rich.

(** The glyph literals of the module, as the characters of its source
    text: a star mark, a fork mark and a watcher mark. *)
Definition STAR : str := [226; 173]%N.
Definition FORK : str := [226; 381; 8225]%N.
Definition EYES : str := [240; 376; 8216; 8364]%N.

(** [math.ceil(round(number / 100.0, 1)) * 100] *)
Definition new_number (number : Z) : result Z :=
  x ← int_truediv_float number (float_lit 100);
  c ← ceil (round1 x);
  Ok (c * 100).

(** [number] is an int, which [int(number)] leaves as it is. *)
Definition shorten_count (number : Z) : result str :=
  if number <? 1000 then Ok (str_of_int number)
  else
    new_number ← new_number number;
    if new_number mod 1000 =? 0 then
      c ← index (str_of_int new_number) 0;
      Ok ([c] ++ lit "k")
    else if new_number <? 1000 then
      Ok (str_of_int number)
    else
      y ← int_truediv_float new_number (float_lit 1000);
      Ok (str_of_float y ++ lit "k").

(** One count of [get_stats]: [f"{repo[key]} <glyph> " if repo[key] != "-1" else ""] *)
Definition stat (repo : dict) (key : string) (glyph : str) : result str :=
  v ← getitem repo key;
  if ne v (VStr (lit "-1"))
  then Ok (str_of v ++ lit " " ++ glyph ++ lit " ")
  else Ok [].

Definition get_stats (repo : dict) : result str :=
  stars ← stat repo "stargazers_count" STAR;
  forks ← stat repo "forks_count" FORK;
  watchers ← stat repo "watchers_count" EYES;
  Ok (stars ++ forks ++ watchers).

(** ["date_range" in repo.keys() and repo["date_range"]], as a condition *)
Definition has_date_range (repo : dict) : bool :=
  has_key repo "date_range" && truthy (default VNone (repo !! "date_range")).

(** [repo["date_range"].replace("stars", <star>)] *)
Definition date_range_text (repo : dict) : result str :=
  v ← getitem repo "date_range";
  match v with
  | VStr s => Ok (replace s (lit "stars") STAR)
  | _ => Raise AttributeError
  end.

(** ** The records and the console

    The layouts receive a list of references to the caller's records and
    write through them; what they print goes to the console.  A layout is
    a function of that world, which also says how the call ends. *)

Abbreviation loc := nat.

Record world := mkWorld {
  heap : loc → dict;
  console : list printed
}.

Definition M (A : Type) : Type := world → world * result A.

Definition ret_M {A} (a : A) : M A := λ w, (w, Ok a).

Definition bind_M {A B} (k : A → M B) (m : M A) : M B :=
  λ w, match m w with
       | (w', Ok a) => k a w'
       | (w', Raise e) => (w', Raise e)
       end.

#[global] Instance M_ret : MRet M := @ret_M.
#[global] Instance M_bind : MBind M := @bind_M.

(** A step that only computes. *)
Definition lift {A} (r : result A) : M A := λ w, (w, r).

(** The record behind a reference. *)
Definition read (l : loc) : M dict := λ w, (w, Ok (heap w l)).

(** [repo[k] = v], through the reference [l] *)
Definition setitem (l : loc) (k : string) (v : value) : M unit :=
  λ w, (mkWorld (<[l := <[k := v]> (heap w l)]> (heap w)) (console w), Ok ()).

(** [console.print(p)] *)
Definition print (p : printed) : M unit :=
  λ w, (mkWorld (heap w) (console w ++ [p]), Ok ()).

(** [for x in xs: body(x)], collecting what the bodies return. *)
Fixpoint for_M {A B} (body : A → M B) (xs : list A) : M (list B) :=
  match xs with
  | [] => ret_M []
  | x :: xs' => bind_M (λ b, bind_M (λ bs, ret_M (b :: bs)) (for_M body xs'))
                       (body x)
  end.

(** ** list_layout *)

Definition LAYOUT_WIDTH : Z := 80.

(** The render group of one repository. *)
Definition render_repo (repo : dict) : result (list renderable) :=
  stats ← get_stats repo;
  full_name ← getitem repo "full_name";
  title ← text full_name [];
  let title := mkText (plain title) (style title) (Some (lit "fold")) (spans title) in
  html_url ← getitem repo "html_url";
  let title := stylize title (lit "yellow link " ++ str_of html_url) in
  language ← getitem repo "language";
  language_col ← (if truthy language then text language (lit "bold cyan")
                  else Ok (text_of (lit "unknown language") []));
  date_range_col ← (if has_date_range repo
                    then s ← date_range_text repo; Ok (text_of s (lit "bold cyan"))
                    else Ok (text_of [] []));
  description ← getitem repo "description";
  body ← (if truthy description
          then match description with
               | VStr s => Ok (Plain (text_of (strip s) (lit "green")))
               | _ => Raise AttributeError
               end
          else Ok (Markup (lit "[i green]no description")));
  Ok [ Rule (lit "bright_yellow");
       Markup [];
       Grid title (text_of stats (lit "bold blue"));
       Markup [];
       Grid language_col date_range_col;
       Markup [];
       body;
       Markup [] ].

(** [column(renderable)] *)
Definition column (body : list renderable) : printed := Column LAYOUT_WIDTH body.

Definition list_layout (repos : list loc) : M unit :=
  _ ← for_M (λ l, repo ← read l;
                   group ← lift (render_repo repo);
                   print (column group)) repos;
  print (column [Rule (lit "bright_yellow")]).

(** ** table_layout and grid_layout *)

(** [if not repo[k]: repo[k] = "None"] *)
Definition default_None (l : loc) (k : string) : M unit :=
  repo ← read l;
  v ← lift (getitem repo k);
  if truthy v then ret_M () else setitem l k (VStr (lit "None")).

Definition NEWLINE : str := [10%N].

Definition table_row_of (l : loc) : M table_row :=
  repo ← read l;
  stats ← lift (get_stats repo);
  date_range ← lift (if has_date_range repo
                     then s ← date_range_text repo; Ok (NEWLINE ++ s)
                     else Ok []);
  let stats := stats ++ date_range in
  _ ← default_None l "language";
  _ ← default_None l "description";
  repo ← read l;
  name ← lift (getitem repo "name");
  language ← lift (getitem repo "language");
  description ← lift (getitem repo "description");
  ret_M (mkRow name language description stats).

Definition table_header : list (str * str) :=
  [ (lit "Name", lit "bold cyan");
    (lit "Language", lit "green");
    (lit "Description", lit "blue");
    (lit "Stats", lit "magenta") ].

Definition table_layout (repos : list loc) : M unit :=
  rows ← for_M table_row_of repos;
  print (Table table_header rows).

Definition max_desc_len : Z := 90.

(** The parts of one panel's [Text.assemble]. *)
Definition panel_of (wide : N → bool) (l : loc) : M (list Text) :=
  repo ← read l;
  stats ← lift (get_stats repo);
  date_range_str ← lift (if has_date_range repo
                         then s ← date_range_text repo; Ok (s ++ NEWLINE)
                         else Ok []);
  _ ← default_None l "language";
  _ ← default_None l "description";
  repo ← read l;
  name ← lift (v ← getitem repo "name"; text v (lit "bold yellow"));
  language ← lift (v ← getitem repo "language"; text v (lit "magenta"));
  description ← lift (v ← getitem repo "description"; text v (lit "green"));
  let stats := text_of stats (lit "blue") in
  let description := truncate wide max_desc_len description in
  ret_M [ name; text_of NEWLINE []; stats; text_of NEWLINE [];
          text_of date_range_str []; language; text_of NEWLINE [];
          description ].

Definition grid_layout (wide : N → bool) (repos : list loc) : M unit :=
  panels ← for_M (panel_of wide) repos;
  print (Columns 30 panels).

(** ** graph_layout *)

(** The call [plot(x, y, rows, columns)]. *)
Record plot_call := mkPlot {
  plot_x : list Z;
  plot_y : list Z;
  plot_rows : Z;
  plot_columns : Z
}.

(** Bounds of column [i]. *)
Definition lower_date (min_date date_delta i : Z) : result Z :=
  d ← td_mul i date_delta; date_add min_date d.

Definition upper_date (min_date date_delta i : Z) : result Z :=
  d ← td_mul (i + 1) date_delta; date_add min_date d.

(** [[x for x in star_dates if (x >= lower_date and x < upper_date)]] *)
Definition star_arr (star_dates : list Z) (lower upper : Z) : list Z :=
  filter (λ x, lower ≤ x ∧ x < upper) star_dates.

(** One turn of the loop over the columns. *)
Definition count_column (star_dates : list Z) (min_date date_delta : Z)
    (star_counts : list Z) (i : Z) : result (list Z) :=
  lower ← lower_date min_date date_delta i;
  upper ← upper_date min_date date_delta i;
  prev ← index star_counts (i - 1);
  Ok (star_counts ++ [Z.of_nat (length (star_arr star_dates lower upper)) + prev]).

(** The cumulative series: [star_counts] when the loop is over. *)
Definition star_counts (star_dates : list Z) (min_date date_delta col_count : Z)
  : result (list Z) :=
  for_each (count_column star_dates min_date date_delta) [0] (range 1 col_count).

(** [today] is [datetime.now().date()] and [size] what
    [get_terminal_size()] returns.  The diagnostic [print]s and the
    unused [star_2], [star_3] are left out. *)
Definition graph_layout (today : Z) (size : Z * Z) (star_dates : list Z)
  : result plot_call :=
  min_date ← index star_dates 0;
  let max_date := today in
  let '(row_count, col_count) := size in
  span ← date_sub max_date min_date;
  date_delta ← td_truediv span col_count;
  third ← td_truediv date_delta 3;
  d2 ← td_mul 1 third;
  date_2 ← date_add min_date d2;
  d3 ← td_mul 2 third;
  date_3 ← date_add min_date d3;
  counts ← star_counts star_dates min_date date_delta col_count;
  Ok (mkPlot (range 0 col_count) counts row_count col_count).

(* ===================================================================== *)
(** * Notions and inputs the properties are stated with                   *)
(* ===================================================================== *)

(** A record that holds the three counts only. *)
Definition counts (stars forks watchers : value) : dict :=
  {[ "stargazers_count" := stars;
     "forks_count" := forks;
     "watchers_count" := watchers ]}.

(** The token [get_stats] prints for a count: nothing for the str ["-1"]. *)
Definition token (v : value) (glyph : str) : str :=
  if bool_decide (v = VStr (lit "-1")) then []
  else str_of v ++ lit " " ++ glyph ++ lit " ".

(** The record of the end-to-end list example; an absent field is [None]. *)
Definition record_x_y (stars forks watchers : value) : dict :=
  {[ "full_name" := VStr (lit "x/y");
     "html_url" := VStr (lit "http://x");
     "stargazers_count" := stars;
     "forks_count" := forks;
     "watchers_count" := watchers;
     "language" := VNone;
     "description" := VNone ]}.

(** A world with the same record behind every reference and an empty console. *)
Definition only (repo : dict) : world := mkWorld (λ _, repo) [].

(** Each entry is at least the one before it. *)
Definition nondecreasing (l : list Z) : Prop :=
  ∀ i a b, l !! i = Some a → l !! S i = Some b → a ≤ b.

(** What the table and grid layouts store for a language or description. *)
Definition defaulted (v : value) : value :=
  if truthy v then v else VStr (lit "None").

(** The render group of the end-to-end list example, for a stats string. *)
Definition x_y_group (stats : str) : list renderable :=
  [ Rule (lit "bright_yellow");
    Markup [];
    Grid (mkText (lit "x/y") [] (Some (lit "fold")) [lit "yellow link http://x"])
         (text_of stats (lit "bold blue"));
    Markup [];
    Grid (text_of (lit "unknown language") []) (text_of [] []);
    Markup [];
    Markup (lit "[i green]no description");
    Markup [] ].

(** A count with its glyph, as it stands in a stats string. *)
Definition shown (count glyph : str) : str := count ++ lit " " ++ glyph ++ lit " ".

(** The record of the list example with the name the table and the grid
    show, and the counts already shortened. *)
Definition record_y : dict :=
  <["name" := VStr (lit "y")]>
    (record_x_y (VStr (lit "1.5k")) (VStr (lit "-1")) (VStr (lit "-1"))).

(** The fields the table and grid layouts may overwrite. *)
Definition defaultable (k : string) : Prop := k = "language" ∨ k = "description".

(** [w'] differs from [w] at most in this: in records behind [refs], a
    language or description that was falsy now is the str ["None"]. *)
Definition only_defaults (refs : list loc) (w w' : world) : Prop :=
  ∀ l k,
    heap w' l !! k = heap w l !! k
    ∨ (l ∈ refs ∧ defaultable k
       ∧ ∃ v, heap w l !! k = Some v ∧ truthy v = false
              ∧ heap w' l !! k = Some (VStr (lit "None"))).

(** Field [k] of the record behind [l] was present in [w] and is its
    defaulted value in [w']. *)
Definition defaulted_at (l : loc) (k : string) (w w' : world) : Prop :=
  ∃ v, heap w l !! k = Some v ∧ heap w' l !! k = Some (defaulted v).

(** [m] changes at most defaults behind [refs], and when it returns it
    has defaulted the fields [D]. *)
Definition tracks {A} (refs : list loc) (D : loc → string → Prop) (m : M A) : Prop :=
  ∀ w, only_defaults refs w (m w).1
       ∧ ∀ a, (m w).2 = Ok a → ∀ l k, D l k → defaulted_at l k w (m w).1.

(** A width table for the examples: the CJK unified ideographs are wide. *)
Definition cjk (c : N) : bool := ((19968 <=? c) && (c <=? 40959))%N.

(* ===================================================================== *)
(** * Notions for the further properties                                  *)
(* ===================================================================== *)





(** ** Evaluating [new_number] by shifts

    The divisions of [new_number] by a power of two are shifts, and the
    division by [100.0], which is [50 * 2^47 * 2^-46], is a division by
    [50].  The definitions below compute that way; they are shown equal to
    the ones above, and serve to evaluate them on a range of counts. *)







(** A value [Text] can show, or one the layouts replace. *)
Definition text_or_falsy (v : value) : Prop := truthy v = false ∨ ∃ s, v = VStr s.

(** The date range, when there is one to show, is a str. *)
Definition date_range_ok (repo : dict) : Prop :=
  ∀ v, repo !! "date_range" = Some v → text_or_falsy v.

Definition has_counts (repo : dict) : Prop :=
  is_Some (repo !! "stargazers_count")
  ∧ is_Some (repo !! "forks_count")
  ∧ is_Some (repo !! "watchers_count").

(** The records the list layout can render. *)
Definition listable (repo : dict) : Prop :=
  has_counts repo
  ∧ (∃ s, repo !! "full_name" = Some (VStr s))
  ∧ is_Some (repo !! "html_url")
  ∧ (∃ v, repo !! "language" = Some v ∧ text_or_falsy v)
  ∧ date_range_ok repo
  ∧ (∃ v, repo !! "description" = Some v ∧ text_or_falsy v).

(** One turn of the loop of [list_layout]. *)
Definition print_repo (l : loc) : M unit :=
  repo ← read l;
  group ← lift (render_repo repo);
  print (column group).

(** [groups] are the render groups of the records behind [refs]. *)
Definition rendered (w : world) (refs : list loc) (groups : list (list renderable))
  : Prop :=
  Forall2 (λ l g, render_repo (heap w l) = Ok g) refs groups.

(** The records the table layout can show. *)
Definition tabulable (repo : dict) : Prop :=
  has_counts repo
  ∧ date_range_ok repo
  ∧ is_Some (repo !! "language")
  ∧ is_Some (repo !! "description")
  ∧ is_Some (repo !! "name").

(** [row] shows the record behind [l] as it is in [w]: its name, its
    language and description (a falsy one as ["None"]), and its stats,
    followed by the date range if there is one. *)
Definition row_of (w : world) (l : loc) (row : table_row) : Prop :=
  heap w l !! "name" = Some (cell_name row)
  ∧ (∃ v, heap w l !! "language" = Some v ∧ cell_language row = defaulted v)
  ∧ (∃ v, heap w l !! "description" = Some v ∧ cell_description row = defaulted v)
  ∧ ∃ stats date_line,
      get_stats (heap w l) = Ok stats
      ∧ cell_stats row = stats ++ date_line
      ∧ (has_date_range (heap w l) = false → date_line = [])
      ∧ (∀ s, heap w l !! "date_range" = Some (VStr s) → s ≠ [] →
              date_line = NEWLINE ++ replace s (lit "stars") STAR).

(** [m] prints nothing. *)
Definition quiet {A} (m : M A) : Prop := ∀ w, console (m w).1 = console w.

(** [parts] show the record behind [l] as it is in [w]: name, stats,
    date range, language and description (a falsy one as ["None"]), the
    description cut to [max_desc_len] cells. *)
Definition panel_shows (wide : N → bool) (w : world) (l : loc) (parts : list Text)
  : Prop :=
  ∃ name stats date_line language description,
    parts = [ text_of name (lit "bold yellow"); text_of NEWLINE [];
              text_of stats (lit "blue"); text_of NEWLINE [];
              text_of date_line []; text_of language (lit "magenta");
              text_of NEWLINE [];
              truncate wide max_desc_len (text_of description (lit "green")) ]
    ∧ heap w l !! "name" = Some (VStr name)
    ∧ get_stats (heap w l) = Ok stats
    ∧ (has_date_range (heap w l) = false → date_line = [])
    ∧ (∀ s, heap w l !! "date_range" = Some (VStr s) → s ≠ [] →
            date_line = replace s (lit "stars") STAR ++ NEWLINE)
    ∧ (∃ v, heap w l !! "language" = Some v ∧ VStr language = defaulted v)
    ∧ (∃ v, heap w l !! "description" = Some v ∧ VStr description = defaulted v).

(** The time one column spans, and the date column [i] starts at. *)
Definition date_delta_of (today min_date col_count : Z) : Z :=
  divide_and_round ((today - min_date) * US_PER_DAY) col_count.

Definition column_start (min_date date_delta i : Z) : Z :=
  min_date + td_days (i * date_delta).

(** The number of stars dated from [lo] up to, not including, [hi]. *)
Definition counted (star_dates : list Z) (lo hi : Z) : Z :=
  Z.of_nat (length (star_arr star_dates lo hi)).

(** A store for the examples: [record_y] behind reference 0, an empty
    record behind every other. *)
Definition one_record : world := mkWorld (<[0%nat := record_y]> (λ _, ∅)) [].

(** What the list layout shows for [record_y] once its language and
    description have been defaulted. *)
Definition x_y_group_after_defaults : list renderable :=
  [ Rule (lit "bright_yellow");
    Markup [];
    Grid (mkText (lit "x/y") [] (Some (lit "fold")) [lit "yellow link http://x"])
         (text_of (shown (lit "1.5k") STAR) (lit "bold blue"));
    Markup [];
    Grid (text_of (lit "None") (lit "bold cyan")) (text_of [] []);
    Markup [];
    Plain (text_of (lit "None") (lit "green"));
    Markup [] ].

(* ===================================================================== *)
(** * Properties                                                          *)
(* ===================================================================== *)

(** ** shorten_count *)

Lemma str_of_N_nonempty n : str_of_N n ≠ [].
Proof.
  unfold str_of_N. destruct n as [|p]; [discriminate|].
  simpl. pose proof (DecimalPos.Unsigned.to_uint_nonnil p) as H.
  destruct (Pos.to_uint p); try discriminate. by destruct H.
Qed.

Lemma str_of_int_nonempty n : str_of_int n ≠ [].
Proof.
  destruct n; simpl; try apply str_of_N_nonempty. discriminate.
Qed.

(** Below 1000 the number is printed as it is. *)
Lemma shorten_count_below_1000 number :
  number < 1000 → shorten_count number = Ok (str_of_int number).
Proof.
  intros H. unfold shorten_count.
  destruct (number <? 1000) eqn:E; [done | apply Z.ltb_ge in E; lia].
Qed.

(** C7, as the code has it: [shorten_count(12345)] is ["12.4k"] (the
    hundreds are rounded up), which ends in "k" and is as long as the
    five characters of ["12345"], not shorter. *)
Theorem shorten_count_12345 :
  shorten_count 12345 = Ok (lit "12.4k")
  ∧ endswith (lit "12.4k") (lit "k") = true
  ∧ length (lit "12.4k") = length (str_of_int 12345)
  ∧ length (str_of_int 12345) = 5%nat.
Proof. repeat split; vm_compute; reflexivity. Qed.

(** C7, as stated, fails: the result is not ["12.3k"], nor any string
    shorter than ["12345"]. *)
Lemma shorten_count_12345_not_12_3k :
  ¬ (∃ s, shorten_count 12345 = Ok s
          ∧ (s = lit "12.3k" ∨ (length s < length (str_of_int 12345))%nat)).
Proof.
  intros (s & Hs & H). vm_compute in Hs. inversion Hs; subst s.
  destruct H as [H | H]; vm_compute in H; [discriminate | lia].
Qed.

(** C10: when the value rounded to hundreds is a multiple of 1000, the
    result is the first character of its decimal form followed by "k",
    whatever its magnitude; so 10000 and 1000 both give ["1k"]. *)
Theorem shorten_count_multiple_of_1000 (number rounded : Z) :
  1000 ≤ number →
  new_number number = Ok rounded →
  rounded mod 1000 = 0 →
  (∃ c rest, str_of_int rounded = c :: rest
             ∧ shorten_count number = Ok ([c] ++ lit "k"))
  ∧ shorten_count 10000 = Ok (lit "1k")
  ∧ shorten_count 1000 = Ok (lit "1k").
Proof.
  intros Hge Hnew Hmod. split; [|split; vm_compute; reflexivity].
  pose proof (str_of_int_nonempty rounded) as Hne.
  destruct (str_of_int rounded) as [|c rest] eqn:Hstr; [done|].
  exists c, rest. split; [done|].
  unfold shorten_count.
  destruct (number <? 1000) eqn:Hlt; [apply Z.ltb_lt in Hlt; lia|].
  rewrite Hnew. simpl.
  rewrite Hmod. simpl. rewrite Hstr. reflexivity.
Qed.

Lemma shorten_count_multiple_of_1000_witness :
  (∃ c rest, str_of_int 10000 = c :: rest
             ∧ shorten_count 10000 = Ok ([c] ++ lit "k"))
  ∧ shorten_count 10000 = Ok (lit "1k")
  ∧ shorten_count 1000 = Ok (lit "1k").
Proof.
  apply (shorten_count_multiple_of_1000 10000 10000).
  - lia.
  - vm_compute; reflexivity.
  - reflexivity.
Defined.

(** ** get_stats *)

Lemma stat_token (repo : dict) key glyph v :
  repo !! key = Some v → stat repo key glyph = Ok (token v glyph).
Proof.
  intros Hv. unfold stat, getitem, token, ne. rewrite Hv. simpl.
  by destruct (bool_decide (v = VStr (lit "-1"))).
Qed.

Lemma token_empty v glyph : token v glyph = [] ↔ v = VStr (lit "-1").
Proof.
  unfold token. case_bool_decide as Hv; [done|].
  split; [|done]. change (lit " ") with [32%N].
  by destruct (str_of v).
Qed.

(** C1, as the code has it: the sentinel [get_stats] leaves out is the
    str ["-1"].  For every record the result is the three tokens in the
    order stars, forks, watchers, and a token is empty exactly when the
    field is the str ["-1"]; three such fields give the empty string, and
    stars 5, forks ["-1"], watchers 2 give a star token and a watcher
    token and no fork token. *)
Theorem get_stats_omits_str_sentinel :
  (∀ (repo : dict) s f w,
      repo !! "stargazers_count" = Some s →
      repo !! "forks_count" = Some f →
      repo !! "watchers_count" = Some w →
      get_stats repo = Ok (token s STAR ++ token f FORK ++ token w EYES))
  ∧ (∀ v glyph, token v glyph = [] ↔ v = VStr (lit "-1"))
  ∧ get_stats (counts (VStr (lit "-1")) (VStr (lit "-1")) (VStr (lit "-1"))) = Ok []
  ∧ (∃ stats, get_stats (counts (VInt 5) (VStr (lit "-1")) (VInt 2)) = Ok stats
              ∧ contains stats (shown (lit "5") STAR) = true
              ∧ contains stats (shown (lit "2") EYES) = true
              ∧ contains stats FORK = false).
Proof.
  split; [|split; [|split]].
  - intros repo s f w Hs Hf Hw. unfold get_stats.
    rewrite (stat_token _ _ _ _ Hs), (stat_token _ _ _ _ Hf),
      (stat_token _ _ _ _ Hw). reflexivity.
  - apply token_empty.
  - vm_compute; reflexivity.
  - eexists. split; [vm_compute; reflexivity|].
    repeat split; vm_compute; reflexivity.
Qed.

Lemma get_stats_omits_str_sentinel_witness :
  get_stats (counts (VInt 7) (VStr (lit "-1")) (VStr (lit "3.1k")))
  = Ok (token (VInt 7) STAR ++ token (VStr (lit "-1")) FORK
        ++ token (VStr (lit "3.1k")) EYES).
Proof.
  apply (proj1 get_stats_omits_str_sentinel); vm_compute; reflexivity.
Defined.

(** C1, as stated, fails: the integer -1 is printed like any other count. *)
Lemma get_stats_prints_int_minus_one :
  get_stats (counts (VInt (-1)) (VInt (-1)) (VInt (-1)))
  = Ok (shown (lit "-1") STAR ++ shown (lit "-1") FORK ++ shown (lit "-1") EYES)
  ∧ get_stats (counts (VInt (-1)) (VInt (-1)) (VInt (-1))) ≠ Ok []
  ∧ (∃ stats, get_stats (counts (VInt 5) (VInt (-1)) (VInt 2)) = Ok stats
              ∧ contains stats (shown (lit "-1") FORK) = true).
Proof.
  split; [vm_compute; reflexivity|]. split.
  - intros H. vm_compute in H. discriminate.
  - eexists. split; vm_compute; reflexivity.
Qed.

(** ** list_layout *)

(** C2, as the code has it: the list layout prints the counts as they
    are in the record.  For the record of the example the title row shows
    "x/y", linked to its URL, with the stats ["1500 * -1 * -1 * "] (each
    [*] the glyph of its count); the language row shows "unknown
    language" and the description row the italic "no description" markup.
    The title row shows ["1.5k"] when the record already holds the
    shortened counts, [shorten_count(1500)] and [shorten_count(-1)]. *)
Theorem list_layout_x_y :
  let ints := record_x_y (VInt 1500) (VInt (-1)) (VInt (-1)) in
  let shortened := record_x_y (VStr (lit "1.5k")) (VStr (lit "-1")) (VStr (lit "-1")) in
  list_layout [0%nat] (only ints)
  = (mkWorld (λ _, ints)
       [ column (x_y_group (shown (lit "1500") STAR ++ shown (lit "-1") FORK
                            ++ shown (lit "-1") EYES));
         column [Rule (lit "bright_yellow")] ],
     Ok ())
  ∧ shorten_count 1500 = Ok (lit "1.5k")
  ∧ shorten_count (-1) = Ok (lit "-1")
  ∧ list_layout [0%nat] (only shortened)
    = (mkWorld (λ _, shortened)
         [ column (x_y_group (shown (lit "1.5k") STAR));
           column [Rule (lit "bright_yellow")] ],
       Ok ()).
Proof. repeat split; vm_compute; reflexivity. Qed.

(** C2, as stated, fails: no "1.5k" appears in the title row printed for
    the record with the integer counts. *)
Lemma list_layout_x_y_no_1_5k :
  ∃ title stats rest last,
    console (list_layout [0%nat]
               (only (record_x_y (VInt 1500) (VInt (-1)) (VInt (-1))))).1
    = [ Column 80 (Rule (lit "bright_yellow") :: Markup [] :: Grid title stats :: rest);
        last ]
    ∧ contains (plain title) (lit "1.5k") = false
    ∧ contains (plain stats) (lit "1.5k") = false
    ∧ contains (plain stats) (lit "1500") = true.
Proof.
  do 4 eexists. split; [vm_compute; reflexivity|].
  repeat split; vm_compute; reflexivity.
Qed.

(** A record without the key raises instead of printing a placeholder. *)
Lemma list_layout_missing_language :
  list_layout [0%nat]
    (only (delete "language" (record_x_y (VInt 1500) (VInt (-1)) (VInt (-1)))))
  = (only (delete "language" (record_x_y (VInt 1500) (VInt (-1)) (VInt (-1)))),
     Raise (KeyError "language")).
Proof. vm_compute; reflexivity. Qed.

(** ** graph_layout *)

(** C5: from 2020-01-01 to 2020-01-11 in 5 columns a column spans two
    days; column 1 is [2020-01-03, 2020-01-05), so a star of 2020-01-03
    is counted there, and neither in [2020-01-01, 2020-01-03) nor in
    [2020-01-05, 2020-01-07); the series counts it from index 1 on. *)
Theorem column_of_2020_01_03 :
  let min_date := date 2020 1 1 in
  let max_date := date 2020 1 11 in
  let star := date 2020 1 3 in
  ∃ date_delta,
    (span ← date_sub max_date min_date; td_truediv span 5) = Ok date_delta
    ∧ date_delta = 2 * US_PER_DAY
    ∧ lower_date min_date date_delta 1 = Ok (date 2020 1 3)
    ∧ upper_date min_date date_delta 1 = Ok (date 2020 1 5)
    ∧ star_arr [star] (date 2020 1 3) (date 2020 1 5) = [star]
    ∧ lower_date min_date date_delta 0 = Ok (date 2020 1 1)
    ∧ upper_date min_date date_delta 0 = Ok (date 2020 1 3)
    ∧ star_arr [star] (date 2020 1 1) (date 2020 1 3) = []
    ∧ lower_date min_date date_delta 2 = Ok (date 2020 1 5)
    ∧ upper_date min_date date_delta 2 = Ok (date 2020 1 7)
    ∧ star_arr [star] (date 2020 1 5) (date 2020 1 7) = []
    ∧ star_counts [min_date; star] min_date date_delta 5 = Ok [0; 1; 1; 1; 1].
Proof.
  eexists. split; [vm_compute; reflexivity|].
  repeat split; vm_compute; reflexivity.
Qed.

(** The preconditions the spec leaves to the caller do raise. *)
Lemma graph_layout_empty today size : graph_layout today size [] = Raise IndexError.
Proof. reflexivity. Qed.

Lemma timedelta_ok us :
  - MAX_DELTA_DAYS ≤ td_days us ≤ MAX_DELTA_DAYS → timedelta us = Ok us.
Proof.
  intros H. unfold timedelta.
  destruct (td_days us <? - MAX_DELTA_DAYS) eqn:E1; [apply Z.ltb_lt in E1; lia|].
  destruct (MAX_DELTA_DAYS <? td_days us) eqn:E2; [apply Z.ltb_lt in E2; lia|].
  reflexivity.
Qed.

Lemma date_add_ok d td :
  0 < d + td_days td ≤ MAXORDINAL → date_add d td = Ok (d + td_days td).
Proof.
  intros H. unfold date_add.
  destruct (0 <? d + td_days td) eqn:E1; [|apply Z.ltb_ge in E1; lia].
  destruct (d + td_days td <=? MAXORDINAL) eqn:E2; [|apply Z.leb_gt in E2; lia].
  reflexivity.
Qed.

Lemma td_days_whole n : td_days (n * US_PER_DAY) = n.
Proof. unfold td_days. apply Z.div_mul. discriminate. Qed.

Lemma td_days_bounds us n :
  0 ≤ us < (n + 1) * US_PER_DAY → 0 ≤ td_days us ≤ n.
Proof.
  intros [H0 H1]. unfold td_days. split.
  - apply Z.div_pos; [done | reflexivity].
  - assert (us / US_PER_DAY < n + 1); [|lia].
    apply Z.div_lt_upper_bound; [reflexivity | lia].
Qed.

Lemma graph_layout_no_columns today rows d star_dates :
  valid_date today → valid_date d →
  graph_layout today (rows, 0) (d :: star_dates) = Raise ZeroDivisionError.
Proof.
  unfold valid_date, MAXORDINAL. intros Ht Hd.
  unfold graph_layout. simpl. unfold date_sub.
  rewrite timedelta_ok; [reflexivity|].
  rewrite td_days_whole. unfold MAX_DELTA_DAYS. lia.
Qed.

(** [divide_and_round] is within half of the exact quotient. *)
Lemma divide_and_round_bounds a b :
  0 < b → - b ≤ 2 * (b * divide_and_round a b - a) ≤ b.
Proof.
  intros Hb. unfold divide_and_round.
  pose proof (Z.div_mod a b ltac:(lia)) as Hdm.
  pose proof (Z.mod_pos_bound a b Hb) as Hr.
  destruct (0 <? b) eqn:E; [|apply Z.ltb_ge in E; lia].
  destruct (b <? 2 * (a mod b)) eqn:E1; simpl.
  - apply Z.ltb_lt in E1. nia.
  - apply Z.ltb_ge in E1.
    destruct (2 * (a mod b) =? b) eqn:E2; simpl.
    + apply Z.eqb_eq in E2.
      destruct (a / b mod 2 =? 1); nia.
    + nia.
Qed.

Lemma divide_and_round_nonneg a b :
  0 < b → 0 ≤ a → 0 ≤ divide_and_round a b.
Proof.
  intros Hb Ha. unfold divide_and_round.
  pose proof (Z.div_pos a b Ha Hb).
  destruct (_ || _); lia.
Qed.

Lemma bind_Ok {A B} (a : A) (k : A → result B) : (Ok a ≫= k) = k a.
Proof. reflexivity. Qed.

Lemma for_each_cons {A B} (body : A → B → result A) acc x xs :
  for_each body acc (x :: xs) = body acc x ≫= λ acc', for_each body acc' xs.
Proof. reflexivity. Qed.

Lemma range_nil a b : b ≤ a → range a b = [].
Proof.
  intros H. unfold range. replace (Z.to_nat (b - a)) with 0%nat by lia. reflexivity.
Qed.

Lemma range_cons a b : a < b → range a b = a :: range (a + 1) b.
Proof.
  intros H. unfold range.
  replace (Z.to_nat (b - a)) with (S (Z.to_nat (b - (a + 1)))) by lia.
  simpl. f_equal; [lia|].
  rewrite <- seq_shift, map_map. apply map_ext. intros k. lia.
Qed.

Lemma length_range a b : length (range a b) = Z.to_nat (b - a).
Proof. unfold range. by rewrite length_map, length_seq. Qed.

Lemma nondecreasing_snoc l prev x :
  nondecreasing l → list.last l = Some prev → prev ≤ x → nondecreasing (l ++ [x]).
Proof.
  intros Hl Hlast Hx i a b Ha Hb.
  destruct (decide (S i < length l)%nat) as [Hlt|Hge].
  - rewrite lookup_app_l in Ha by lia. rewrite lookup_app_l in Hb by lia. eauto.
  - apply lookup_lt_Some in Hb as Hb'. rewrite length_app in Hb'. simpl in Hb'.
    assert (S i = length l) as Hi by lia.
    rewrite lookup_app_l in Ha by lia.
    rewrite lookup_app_r in Hb by lia.
    replace (S i - length l)%nat with 0%nat in Hb by lia. simpl in Hb.
    rewrite last_lookup in Hlast.
    replace (pred (length l)) with i in Hlast by lia. congruence.
Qed.

Lemma star_arr_empty star_dates d : star_arr star_dates d d = [].
Proof.
  unfold star_arr. induction star_dates as [|x xs IH]; [done|].
  rewrite filter_cons. case_decide; [lia|done].
Qed.

(** Adjacent columns add up. *)
Lemma star_arr_adjacent star_dates lo mid hi :
  lo ≤ mid ≤ hi →
  (length (star_arr star_dates lo mid) + length (star_arr star_dates mid hi))%nat
  = length (star_arr star_dates lo hi).
Proof.
  intros H. unfold star_arr. induction star_dates as [|x xs IH]; [done|].
  rewrite !filter_cons. repeat case_decide; simpl; lia.
Qed.

Section columns.
Variables (star_dates : list Z) (min_date date_delta col_count : Z).

(** Every bound the loop computes is a date, [bound k] for column [k],
    and the bounds do not go back. *)
Variable bound : Z → Z.
Hypothesis bounds_ok :
  ∀ k, 1 ≤ k ≤ col_count → lower_date min_date date_delta k = Ok (bound k).
Hypothesis bounds_mono :
  ∀ j k, 1 ≤ j ≤ k → k ≤ col_count → bound j ≤ bound k.

Lemma upper_is_next_lower i :
  upper_date min_date date_delta i = lower_date min_date date_delta (i + 1).
Proof. reflexivity. Qed.

Lemma count_column_ok acc i prev :
  1 ≤ i < col_count →
  index acc (i - 1) = Ok prev →
  count_column star_dates min_date date_delta acc i
  = Ok (acc ++ [Z.of_nat (length (star_arr star_dates (bound i) (bound (i + 1))))
                + prev]).
Proof.
  intros Hi Hprev. unfold count_column.
  rewrite upper_is_next_lower, !bounds_ok, Hprev by lia. reflexivity.
Qed.

(** The loop from column [a] on: it ends, appends one entry per
    column, keeps the series non-decreasing, and adds to the last entry
    the stars from [bound a] up to [bound col_count]. *)
Lemma count_columns_from (n : nat) : ∀ a acc prev,
  n = Z.to_nat (col_count - a) → 1 ≤ a ≤ col_count →
  length acc = Z.to_nat a →
  list.last acc = Some prev →
  nondecreasing acc →
  ∃ res,
    for_each (count_column star_dates min_date date_delta) acc (range a col_count)
    = Ok res
    ∧ length res = (length acc + n)%nat
    ∧ acc `prefix_of` res
    ∧ nondecreasing res
    ∧ list.last res
      = Some (prev + Z.of_nat (length (star_arr star_dates (bound a)
                                                  (bound col_count)))).
Proof.
  induction n as [|n IH]; intros a acc prev Hn Ha Hlen Hlast Hmono.
  - rewrite range_nil by lia. exists acc. simpl.
    replace a with col_count by lia. rewrite star_arr_empty, Hlast. simpl.
    split; [done|]. split; [lia|]. split; [done|]. split; [done|].
    do 2 f_equal. lia.
  - rewrite range_cons by lia.
    assert (index acc (a - 1) = Ok prev) as Hidx.
    { unfold index. destruct (a - 1 <? 0) eqn:E; [apply Z.ltb_lt in E; lia|].
      rewrite last_lookup in Hlast.
      replace (Z.to_nat (a - 1)) with (pred (length acc)) by lia.
      by rewrite Hlast. }
    rewrite for_each_cons, (count_column_ok acc a prev ltac:(lia) Hidx), bind_Ok.
    set (x := Z.of_nat (length (star_arr star_dates (bound a) (bound (a + 1))))
              + prev).
    destruct (IH (a + 1) (acc ++ [x]) x)
      as (res & Hres & Hlen' & Hpre & Hmono' & Hlast').
    + lia.
    + lia.
    + rewrite length_app. simpl. lia.
    + apply last_snoc.
    + apply (nondecreasing_snoc _ prev); [done|done|]. unfold x. lia.
    + exists res. split; [done|]. split; [|split; [|split; [done|]]].
      * rewrite Hlen', length_app. simpl. lia.
      * etrans; [|exact Hpre]. by apply prefix_app_r.
      * rewrite Hlast'. f_equal. unfold x.
        rewrite <- (star_arr_adjacent star_dates (bound a) (bound (a + 1))
                      (bound col_count)).
        -- lia.
        -- split; apply bounds_mono; lia.
Qed.

Lemma star_counts_returns :
  0 < col_count →
  ∃ counts,
    star_counts star_dates min_date date_delta col_count = Ok counts
    ∧ length counts = Z.to_nat col_count
    ∧ counts !! 0%nat = Some 0
    ∧ nondecreasing counts
    ∧ list.last counts
      = Some (Z.of_nat (length (star_arr star_dates (bound 1) (bound col_count)))).
Proof.
  intros Hc. unfold star_counts.
  destruct (count_columns_from (Z.to_nat (col_count - 1)) 1 [0] 0)
    as (res & Hres & Hlen & Hpre & Hmono & Hlast); [done|lia|done|done| |].
  - intros i a b Ha Hb. destruct i; discriminate.
  - exists res. split; [done|]. split; [simpl in Hlen; lia|].
    split; [|split; [done|]].
    + destruct Hpre as [k ->]. reflexivity.
    + rewrite Hlast. f_equal.
Qed.
End columns.

Section dates_in_range.
Variables (min_date today col_count : Z).
Hypothesis min_valid : valid_date min_date.
Hypothesis today_valid : valid_date today.
Hypothesis past : min_date ≤ today.
Hypothesis columns : 0 < col_count < 2 * US_PER_DAY.

Local Abbreviation span := ((today - min_date) * US_PER_DAY).
Local Abbreviation date_delta := (divide_and_round span col_count).
Local Abbreviation third := (divide_and_round date_delta 3).

Lemma date_sub_today : date_sub today min_date = Ok span.
Proof.
  unfold date_sub. apply timedelta_ok. rewrite td_days_whole.
  unfold valid_date, MAXORDINAL, MAX_DELTA_DAYS in *. lia.
Qed.

Lemma date_delta_bounds :
  0 ≤ date_delta ∧ col_count * date_delta < span + US_PER_DAY.
Proof.
  split.
  - apply divide_and_round_nonneg; [lia|]. unfold US_PER_DAY. lia.
  - pose proof (divide_and_round_bounds span col_count ltac:(lia)). lia.
Qed.

(** A timedelta of less than one day beyond the span keeps a date
    between the first star and today. *)
Lemma within_span us :
  0 ≤ us < span + US_PER_DAY →
  timedelta us = Ok us
  ∧ ∃ d, date_add min_date us = Ok d ∧ min_date ≤ d ≤ today.
Proof.
  intros Hus.
  pose proof (td_days_bounds us (today - min_date) ltac:(lia)) as Hd.
  unfold valid_date, MAXORDINAL in *. split.
  - apply timedelta_ok. unfold MAX_DELTA_DAYS. lia.
  - exists (min_date + td_days us). split; [|lia].
    apply date_add_ok. unfold MAXORDINAL. lia.
Qed.

Lemma td_truediv_today : td_truediv span col_count = Ok date_delta.
Proof.
  unfold td_truediv.
  destruct (col_count =? 0) eqn:E; [apply Z.eqb_eq in E; lia|].
  apply within_span. pose proof date_delta_bounds. nia.
Qed.

Lemma lower_date_ok k :
  0 ≤ k ≤ col_count →
  lower_date min_date date_delta k = Ok (min_date + td_days (k * date_delta)).
Proof.
  intros Hk. pose proof date_delta_bounds as [H0 H1].
  assert (0 ≤ k * date_delta < span + US_PER_DAY) as Hus by nia.
  destruct (within_span _ Hus) as (Htd & d & Hd & Hin).
  unfold lower_date, td_mul. rewrite Htd, bind_Ok.
  apply date_add_ok. unfold valid_date in *.
  pose proof (td_days_bounds (k * date_delta) (today - min_date) ltac:(lia)). lia.
Qed.

Lemma lower_date_mono j k :
  j ≤ k → td_days (j * date_delta) ≤ td_days (k * date_delta).
Proof.
  intros Hjk. pose proof date_delta_bounds as [H0 _].
  unfold td_days. apply Z.div_le_mono; [reflexivity | nia].
Qed.

Lemma third_bounds : 0 ≤ third ∧ 2 * third < span + US_PER_DAY.
Proof.
  pose proof date_delta_bounds as [H0 H1].
  pose proof (divide_and_round_nonneg date_delta 3 ltac:(lia) H0).
  pose proof (divide_and_round_bounds date_delta 3 ltac:(lia)).
  unfold US_PER_DAY in *. nia.
Qed.

Lemma third_date k :
  0 ≤ k ≤ 2 →
  td_truediv date_delta 3 = Ok third
  ∧ td_mul k third = Ok (k * third)
  ∧ ∃ d, date_add min_date (k * third) = Ok d.
Proof.
  intros Hk. pose proof third_bounds as [H0 H1].
  split; [|split].
  - unfold td_truediv. simpl. apply within_span. lia.
  - unfold td_mul. apply within_span. nia.
  - destruct (within_span (k * third) ltac:(nia)) as (_ & d & Hd & _). eauto.
Qed.

(** With a first star that is not after today, [graph_layout] returns,
    and plots a series with one entry per column that starts at 0, never
    decreases, and ends at the number of stars from the lower bound of
    column 1 up to the upper bound of the last column. *)
Lemma graph_layout_returns rows rest :
  ∃ counts,
    graph_layout today (rows, col_count) (min_date :: rest)
    = Ok (mkPlot (range 0 col_count) counts rows col_count)
    ∧ length counts = Z.to_nat col_count
    ∧ counts !! 0%nat = Some 0
    ∧ nondecreasing counts
    ∧ list.last counts
      = Some (Z.of_nat (length (star_arr (min_date :: rest)
                                  (min_date + td_days date_delta)
                                  (min_date + td_days (col_count * date_delta))))).
Proof.
  destruct (star_counts_returns (min_date :: rest) min_date date_delta col_count
              (λ k, min_date + td_days (k * date_delta)))
    as (counts & Hcounts & Hlen & H0 & Hmono & Hlast).
  { intros k Hk. apply lower_date_ok. lia. }
  { intros j k Hj Hk. pose proof (lower_date_mono j k ltac:(lia)). lia. }
  { lia. }
  exists counts. split; [|split; [done|split; [done|split; [done|]]]].
  - unfold graph_layout. change (index (min_date :: rest) 0) with (Ok min_date).
    rewrite bind_Ok, date_sub_today, bind_Ok, td_truediv_today, bind_Ok.
    destruct (third_date 1 ltac:(lia)) as (Hthird & Hm1 & d2 & Hd2).
    destruct (third_date 2 ltac:(lia)) as (_ & Hm2 & d3 & Hd3).
    rewrite Hthird, bind_Ok, Hm1, bind_Ok, Hd2, bind_Ok, Hm2, bind_Ok, Hd3, bind_Ok.
    rewrite Hcounts. reflexivity.
  - rewrite Hlast. cbv beta. rewrite Z.mul_1_l. reflexivity.
Qed.

(** When a column spans a day or more, the first star lies before
    column 1, so the series ends below the number of stars. *)
Lemma graph_layout_final_below_total rows rest :
  col_count ≤ today - min_date →
  ∃ counts final,
    graph_layout today (rows, col_count) (min_date :: rest)
    = Ok (mkPlot (range 0 col_count) counts rows col_count)
    ∧ list.last counts = Some final
    ∧ final < Z.of_nat (length (min_date :: rest)).
Proof.
  intros Hspan.
  destruct (graph_layout_returns rows rest) as (counts & Hrun & _ & _ & _ & Hlast).
  eexists counts, _. split; [exact Hrun|]. split; [exact Hlast|].
  assert (US_PER_DAY ≤ date_delta) as Hday.
  { pose proof (divide_and_round_bounds span col_count ltac:(lia)).
    unfold US_PER_DAY in *. nia. }
  assert (1 ≤ td_days date_delta) as Hfirst.
  { unfold td_days. apply Z.div_le_lower_bound; [reflexivity | lia]. }
  unfold star_arr. rewrite filter_cons. case_decide; [lia|].
  pose proof (length_filter (λ x, min_date + td_days date_delta ≤ x
                            ∧ x < min_date + td_days (col_count * date_delta)) rest).
  simpl. lia.
Qed.
End dates_in_range.

(** C3 fails on the code: the loop starts at column 1, so the stars of
    column 0, the first star among them, are never counted (nor are
    those of the last day).  Whenever the history spans at least a day
    per column, the series ends below the number of stars.  One star ten
    days ago gives a series that ends at 0; three stars, of which one
    falls in column 0 and one on the last day, give a series that ends
    at 1. *)
Theorem graph_layout_misses_first_column today rows col_count star_dates :
  star_dates ≠ [] →
  0 < col_count < 2 * US_PER_DAY →
  valid_date today →
  (∀ d, head star_dates = Some d → valid_date d ∧ d + col_count ≤ today) →
  (∃ p final, graph_layout today (rows, col_count) star_dates = Ok p
              ∧ list.last (plot_y p) = Some final
              ∧ final < Z.of_nat (length star_dates))
  ∧ graph_layout (date 2020 1 11) (24, 5) [date 2020 1 1]
    = Ok (mkPlot [0; 1; 2; 3; 4] [0; 0; 0; 0; 0] 24 5)
  ∧ graph_layout (date 2020 1 11) (24, 5)
      [date 2020 1 1; date 2020 1 3; date 2020 1 11]
    = Ok (mkPlot [0; 1; 2; 3; 4] [0; 1; 1; 1; 1] 24 5).
Proof.
  intros Hne Hc Htoday Hhead.
  split; [|split; vm_compute; reflexivity].
  destruct star_dates as [|min_date rest]; [done|].
  destruct (Hhead min_date eq_refl) as [Hvalid Hspan].
  destruct (graph_layout_final_below_total min_date today col_count Hvalid Htoday
              ltac:(lia) Hc rows rest ltac:(lia))
    as (counts & final & Hrun & Hlast & Hlt).
  eexists _, final. split; [exact Hrun|]. split; [exact Hlast|exact Hlt].
Qed.

Lemma graph_layout_misses_first_column_witness :
  ∃ p final, graph_layout (date 2020 1 11) (24, 5)
               [date 2020 1 1; date 2020 1 3; date 2020 1 11] = Ok p
             ∧ list.last (plot_y p) = Some final
             ∧ final < 3.
Proof.
  apply (graph_layout_misses_first_column (date 2020 1 11) 24 5
           [date 2020 1 1; date 2020 1 3; date 2020 1 11]).
  - discriminate.
  - unfold US_PER_DAY; lia.
  - vm_compute; split; discriminate.
  - intros d Hd. injection Hd as <-. vm_compute. repeat split; discriminate.
Defined.

(** C8: for a non-empty sequence of dates and a positive column count
    the plotted series has exactly [col_count] entries, as many as the
    columns it is plotted against, and entry 0 is 0.  (The dates are
    [datetime.date]s, the first of them not after today; a terminal has
    fewer than 172.8e9 columns, which keeps the rounding of [date_delta]
    below one day.) *)
Theorem graph_layout_series_length today rows col_count star_dates :
  star_dates ≠ [] →
  0 < col_count < 2 * US_PER_DAY →
  valid_date today →
  (∀ d, head star_dates = Some d → valid_date d ∧ d ≤ today) →
  ∃ p, graph_layout today (rows, col_count) star_dates = Ok p
       ∧ Z.of_nat (length (plot_y p)) = col_count
       ∧ length (plot_x p) = length (plot_y p)
       ∧ plot_y p !! 0%nat = Some 0.
Proof.
  intros Hne Hc Htoday Hhead.
  destruct star_dates as [|min_date rest]; [done|].
  destruct (Hhead min_date eq_refl) as [Hvalid Hpast].
  destruct (graph_layout_returns min_date today col_count Hvalid Htoday Hpast Hc
              rows rest) as (counts & Hrun & Hlen & H0 & _ & _).
  eexists. split; [exact Hrun|]. simpl.
  rewrite length_range, Hlen. split; [lia|]. split; [f_equal; lia|done].
Qed.

Lemma graph_layout_series_length_witness :
  ∃ p, graph_layout (date 2020 1 11) (24, 80)
         [date 2020 1 1; date 2020 1 3; date 2020 1 9] = Ok p
       ∧ Z.of_nat (length (plot_y p)) = 80
       ∧ length (plot_x p) = length (plot_y p)
       ∧ plot_y p !! 0%nat = Some 0.
Proof.
  apply graph_layout_series_length.
  - discriminate.
  - unfold US_PER_DAY; lia.
  - vm_compute; split; discriminate.
  - intros d Hd. injection Hd as <-. vm_compute. repeat split; discriminate.
Defined.

(** C4: for a non-empty sequence of dates and a positive column count
    the plotted series is non-decreasing.  (Same reading of the inputs as
    for the length; the order of the dates plays no part.) *)
Theorem graph_layout_series_nondecreasing today rows col_count star_dates :
  star_dates ≠ [] →
  0 < col_count < 2 * US_PER_DAY →
  valid_date today →
  (∀ d, head star_dates = Some d → valid_date d ∧ d ≤ today) →
  ∃ p, graph_layout today (rows, col_count) star_dates = Ok p
       ∧ nondecreasing (plot_y p).
Proof.
  intros Hne Hc Htoday Hhead.
  destruct star_dates as [|min_date rest]; [done|].
  destruct (Hhead min_date eq_refl) as [Hvalid Hpast].
  destruct (graph_layout_returns min_date today col_count Hvalid Htoday Hpast Hc
              rows rest) as (counts & Hrun & _ & _ & Hmono & _).
  eexists. split; [exact Hrun|]. exact Hmono.
Qed.

Lemma graph_layout_series_nondecreasing_witness :
  ∃ p, graph_layout (date 2020 1 11) (24, 80)
         [date 2020 1 1; date 2020 1 3; date 2020 1 9] = Ok p
       ∧ nondecreasing (plot_y p).
Proof.
  apply graph_layout_series_nondecreasing.
  - discriminate.
  - unfold US_PER_DAY; lia.
  - vm_compute; split; discriminate.
  - intros d Hd. injection Hd as <-. vm_compute. repeat split; discriminate.
Defined.

(** ** table_layout and grid_layout: what happens to the records *)

Lemma defaulted_truthy v : truthy (defaulted v) = true.
Proof. unfold defaulted. by destruct (truthy v) eqn:E. Qed.

Lemma defaulted_idemp v : defaulted (defaulted v) = defaulted v.
Proof. unfold defaulted at 1. by rewrite defaulted_truthy. Qed.

Lemma only_defaults_refl refs w : only_defaults refs w w.
Proof. intros l k. by left. Qed.

Lemma only_defaults_trans refs w1 w2 w3 :
  only_defaults refs w1 w2 → only_defaults refs w2 w3 → only_defaults refs w1 w3.
Proof.
  intros H12 H23 l k.
  destruct (H23 l k) as [E23 | (Hl & Hk & v & Hv & Hfalsy & Hnew)].
  - rewrite E23. apply H12.
  - destruct (H12 l k) as [E12 | (_ & _ & v' & _ & _ & Hnew')].
    + right. rewrite <- E12. eauto 10.
    + rewrite Hnew' in Hv. injection Hv as <-. discriminate.
Qed.

Lemma only_defaults_mono refs refs' w w' :
  refs ⊆ refs' → only_defaults refs w w' → only_defaults refs' w w'.
Proof.
  intros Hsub H l k. destruct (H l k) as [E | (Hl & Hrest)]; [by left|].
  right. split; [by apply Hsub | done].
Qed.

(** A field defaulted once stays as it is. *)
Lemma defaulted_at_later refs l k w1 w2 w3 :
  defaulted_at l k w1 w2 → only_defaults refs w2 w3 → defaulted_at l k w1 w3.
Proof.
  intros (v & Hv & Hd) H23. exists v. split; [done|].
  destruct (H23 l k) as [E | (_ & _ & v' & Hv' & Hfalsy & _)]; [by rewrite E|].
  rewrite Hd in Hv'. injection Hv' as <-. by rewrite defaulted_truthy in Hfalsy.
Qed.

(** Defaulting after earlier defaults is defaulting the original value. *)
Lemma defaulted_at_earlier refs l k w1 w2 w3 :
  only_defaults refs w1 w2 → defaulted_at l k w2 w3 → defaulted_at l k w1 w3.
Proof.
  intros H12 (v & Hv & Hd).
  destruct (H12 l k) as [E | (_ & _ & v' & Hv' & Hfalsy & Hnew)].
  - exists v. by rewrite <- E.
  - exists v'. split; [done|]. rewrite Hd. rewrite Hnew in Hv. injection Hv as <-.
    unfold defaulted at 2. rewrite Hfalsy. reflexivity.
Qed.

Section tracking.
Context {A B : Type}.
Variable refs : list loc.

Lemma tracks_bind D1 D2 (m : M A) (k : A → M B) :
  tracks refs D1 m → (∀ a, tracks refs D2 (k a)) →
  tracks refs (λ l f, D1 l f ∨ D2 l f) (m ≫= k).
Proof.
  intros Hm Hk w. unfold mbind, M_bind, bind_M.
  destruct (Hm w) as [Hm1 Hm2].
  destruct (m w) as [w1 [a|e]] eqn:Em; simpl in *.
  - destruct (Hk a w1) as [Hk1 Hk2]. split.
    + eapply only_defaults_trans; eauto.
    + intros b Hb l f [HD | HD].
      * eapply defaulted_at_later; [|exact Hk1]. eauto.
      * eapply defaulted_at_earlier; [exact Hm1|]. eauto.
  - split; [done|]. discriminate.
Qed.

Lemma tracks_weaken (D D' : loc → string → Prop) refs' (m : M A) :
  refs' ⊆ refs → (∀ l f, D l f → D' l f) → tracks refs' D' m → tracks refs D m.
Proof.
  intros Hsub HD Hm w. destruct (Hm w) as [H1 H2]. split.
  - by eapply only_defaults_mono.
  - intros a Ha l f Hlf. eauto.
Qed.

(** Steps that leave the records alone. *)
Lemma tracks_lift (r : result A) : tracks refs (λ _ _, False) (lift r).
Proof. intros w. split; [apply only_defaults_refl | done]. Qed.

Lemma tracks_ret (a : A) : tracks refs (λ _ _, False) (ret_M a).
Proof. intros w. split; [apply only_defaults_refl | done]. Qed.
End tracking.

Lemma tracks_read refs l : tracks refs (λ _ _, False) (read l).
Proof. intros w. split; [apply only_defaults_refl | done]. Qed.

Lemma tracks_print refs p : tracks refs (λ _ _, False) (print p).
Proof. intros w. split; [|done]. intros l k. by left. Qed.

(** The one step that writes. *)
Lemma tracks_default_None l k :
  defaultable k → tracks [l] (λ l' k', l' = l ∧ k' = k) (default_None l k).
Proof.
  intros Hk w. unfold default_None, mbind, M_bind, bind_M, read, lift, getitem.
  simpl. destruct (heap w l !! k) as [v|] eqn:Hv; simpl.
  - destruct (truthy v) eqn:Htruthy; simpl.
    + split; [apply only_defaults_refl|].
      intros _ _ l' k' [-> ->]. exists v. split; [done|].
      unfold defaulted. by rewrite Htruthy.
    + split.
      * intros l' k'. cbn [heap].
        destruct (decide (l = l')) as [<-|Hl].
        -- rewrite fn_lookup_insert.
           destruct (decide (k = k')) as [<-|Hkk].
           ++ right. rewrite lookup_insert_eq. split; [set_solver|]. eauto 10.
           ++ left. by rewrite lookup_insert_ne.
        -- left. by rewrite fn_lookup_insert_ne.
      * intros _ _ l' k' [-> ->]. exists v. split; [done|]. cbn [heap].
        rewrite fn_lookup_insert, lookup_insert_eq.
        unfold defaulted. by rewrite Htruthy.
  - split; [apply only_defaults_refl | discriminate].
Qed.

Lemma tracks_for_M {B} refs (body : loc → M B) xs :
  (∀ l, l ∈ xs → tracks refs (λ l' k, l' = l ∧ defaultable k) (body l)) →
  tracks refs (λ l k, l ∈ xs ∧ defaultable k) (for_M body xs).
Proof.
  induction xs as [|x xs IH]; intros Hbody.
  - simpl. eapply tracks_weaken; [done| |apply tracks_ret].
    intros l f [Hl _]. by apply elem_of_nil in Hl.
  - simpl. eapply tracks_weaken; [done| |].
    2:{ apply (tracks_bind refs (λ l' k, l' = x ∧ defaultable k)
                 (λ l k, (l ∈ xs ∧ defaultable k) ∨ False) (body x));
          [apply Hbody; set_solver|].
        intros b.
        apply (tracks_bind refs (λ l k, l ∈ xs ∧ defaultable k) (λ _ _, False)
                 (for_M body xs)).
        - apply IH. intros l Hl. apply Hbody. set_solver.
        - intros bs. apply tracks_ret. }
    intros l f [Hl Hf]. apply elem_of_cons in Hl as [-> | Hl]; [by left|].
    right. left. done.
Qed.

Ltac track :=
  repeat first
    [ apply tracks_read
    | apply tracks_lift
    | apply tracks_ret
    | apply tracks_print
    | (apply tracks_default_None; unfold defaultable; tauto)
    | (eapply tracks_bind; [|intros ?]) ].

Lemma tracks_table_row_of l :
  tracks [l] (λ l' k, l' = l ∧ defaultable k) (table_row_of l).
Proof.
  unfold table_row_of. cbv zeta.
  eapply tracks_weaken; [done| |]; cycle 1.
  - track.
  - cbv beta. unfold defaultable. intros l' f [-> [-> | ->]]; tauto.
Qed.

Lemma tracks_panel_of wide l :
  tracks [l] (λ l' k, l' = l ∧ defaultable k) (panel_of wide l).
Proof.
  unfold panel_of. cbv zeta.
  eapply tracks_weaken; [done| |]; cycle 1.
  - track.
  - cbv beta. unfold defaultable. intros l' f [-> [-> | ->]]; tauto.
Qed.

Lemma tracks_table_layout repos :
  tracks repos (λ l k, l ∈ repos ∧ defaultable k) (table_layout repos).
Proof.
  unfold table_layout.
  eapply tracks_weaken; [done| |]; cycle 1.
  - eapply tracks_bind; [|intros rows; apply tracks_print].
    apply tracks_for_M. intros l Hl.
    eapply tracks_weaken; [| |apply tracks_table_row_of]; [|done].
    intros l' Hl'. by apply list_elem_of_singleton in Hl' as ->.
  - cbv beta. tauto.
Qed.

Lemma tracks_grid_layout wide repos :
  tracks repos (λ l k, l ∈ repos ∧ defaultable k) (grid_layout wide repos).
Proof.
  unfold grid_layout.
  eapply tracks_weaken; [done| |]; cycle 1.
  - eapply tracks_bind; [|intros rows; apply tracks_print].
    apply tracks_for_M. intros l Hl.
    eapply tracks_weaken; [| |apply tracks_panel_of]; [|done].
    intros l' Hl'. by apply list_elem_of_singleton in Hl' as ->.
  - cbv beta. tauto.
Qed.

(** C6, as the code has it: the table and the grid layout write to the
    caller's records, and only this: a language or description that is
    [None] or empty becomes the str ["None"].  Whatever the records and
    however the call ends, every other field, and every language or
    description that was not falsy, is as before; and when the call
    returns, each record listed holds its defaulted language and
    description. *)
Theorem layouts_only_default (wide : N → bool) (repos : list loc) (w : world) :
  only_defaults repos w (table_layout repos w).1
  ∧ only_defaults repos w (grid_layout wide repos w).1
  ∧ ((table_layout repos w).2 = Ok () →
     ∀ l k, l ∈ repos → defaultable k →
            defaulted_at l k w (table_layout repos w).1)
  ∧ ((grid_layout wide repos w).2 = Ok () →
     ∀ l k, l ∈ repos → defaultable k →
            defaulted_at l k w (grid_layout wide repos w).1).
Proof.
  destruct (tracks_table_layout repos w) as [Ht1 Ht2].
  destruct (tracks_grid_layout wide repos w) as [Hg1 Hg2].
  split; [done|]. split; [done|]. split.
  - intros Hok l k Hl Hk. eapply Ht2; eauto.
  - intros Hok l k Hl Hk. eapply Hg2; eauto.
Qed.

Lemma layouts_only_default_witness :
  defaulted_at 0%nat "language" (only record_y) (table_layout [0%nat] (only record_y)).1
  ∧ defaulted_at 0%nat "description" (only record_y)
      (grid_layout (λ _, false) [0%nat] (only record_y)).1.
Proof.
  split.
  - apply (proj1 (proj2 (proj2 (layouts_only_default (λ _, false) [0%nat] (only record_y))))).
    + vm_compute; reflexivity.
    + set_solver.
    + by left.
  - apply (proj2 (proj2 (proj2 (layouts_only_default (λ _, false) [0%nat] (only record_y))))).
    + vm_compute; reflexivity.
    + set_solver.
    + by right.
Defined.

(** C6, as stated, fails: after either layout the caller's record holds
    the str ["None"] where it held [None]. *)
Lemma layouts_overwrite_None :
  heap (only record_y) 0%nat !! "language" = Some VNone
  ∧ heap (only record_y) 0%nat !! "description" = Some VNone
  ∧ heap (table_layout [0%nat] (only record_y)).1 0%nat !! "language"
    = Some (VStr (lit "None"))
  ∧ heap (table_layout [0%nat] (only record_y)).1 0%nat !! "description"
    = Some (VStr (lit "None"))
  ∧ heap (grid_layout (λ _, false) [0%nat] (only record_y)).1 0%nat !! "language"
    = Some (VStr (lit "None"))
  ∧ heap (grid_layout (λ _, false) [0%nat] (only record_y)).1 0%nat !! "description"
    = Some (VStr (lit "None"))
  ∧ heap (table_layout [0%nat] (only record_y)).1 0%nat ≠ heap (only record_y) 0%nat.
Proof.
  repeat split; try (vm_compute; reflexivity).
  intros H. apply (f_equal (λ d : dict, d !! "language")) in H.
  vm_compute in H. discriminate.
Qed.

(** ** grid_layout: the description is cut by display width *)

Lemma cell_width_bounds wide c : 1 ≤ cell_width wide c ≤ 2.
Proof. unfold cell_width. destruct (wide c); lia. Qed.

Lemma cell_len_nonneg wide s : 0 ≤ cell_len wide s.
Proof.
  induction s as [|c s IH]; simpl; [lia|].
  pose proof (cell_width_bounds wide c). lia.
Qed.

Lemma cell_len_app wide s1 s2 :
  cell_len wide (s1 ++ s2) = cell_len wide s1 + cell_len wide s2.
Proof. induction s1 as [|c s1 IH]; simpl; lia. Qed.

Lemma cell_len_replicate wide n c :
  cell_len wide (replicate n c) = Z.of_nat n * cell_width wide c.
Proof. induction n as [|n IH]; simpl; lia. Qed.

Lemma fit_prefix wide s : ∀ width, fit wide width s `prefix_of` s.
Proof.
  induction s as [|c s IH]; intros width; simpl; [done|].
  destruct (cell_width wide c <=? width); [|apply prefix_nil].
  apply prefix_cons, IH.
Qed.

Lemma cell_len_fit wide s : ∀ width,
  0 ≤ width → cell_len wide (fit wide width s) ≤ width.
Proof.
  induction s as [|c s IH]; intros width Hw; simpl; [done|].
  destruct (cell_width wide c <=? width) eqn:E; simpl; [|done].
  apply Z.leb_le in E. specialize (IH (width - cell_width wide c)). lia.
Qed.

(** A run of one character is cut after as many of them as fit. *)
Lemma fit_replicate wide c : ∀ n width,
  0 ≤ width →
  fit wide width (replicate n c)
  = replicate (Nat.min n (Z.to_nat (width / cell_width wide c))) c.
Proof.
  pose proof (cell_width_bounds wide c) as Hc.
  induction n as [|n IH]; intros width Hw; simpl; [done|].
  destruct (cell_width wide c <=? width) eqn:E.
  - apply Z.leb_le in E. rewrite IH by lia.
    replace (width / cell_width wide c)
      with ((width - cell_width wide c) / cell_width wide c + 1).
    + rewrite Z2Nat.inj_add; [|apply Z.div_pos; lia|lia].
      replace (Z.to_nat 1) with 1%nat by done.
      rewrite Nat.add_1_r. reflexivity.
    + rewrite <- Z.div_add by lia. f_equal. lia.
  - apply Z.leb_gt in E. rewrite Z.div_small by lia. reflexivity.
Qed.

Lemma bind_M_inv {A B} (m : M A) (k : A → M B) w w' b :
  (m ≫= k) w = (w', Ok b) → ∃ a w1, m w = (w1, Ok a) ∧ k a w1 = (w', Ok b).
Proof.
  unfold mbind, M_bind, bind_M. destruct (m w) as [w1 [a|e]]; [eauto|discriminate].
Qed.

Lemma bind_inv {A B} (r : result A) (k : A → result B) b :
  (r ≫= k) = Ok b → ∃ a, r = Ok a ∧ k a = Ok b.
Proof. destruct r as [a|e]; [eauto|discriminate]. Qed.

Lemma lift_inv {A} (r : result A) w w' a : lift r w = (w', Ok a) → w' = w ∧ r = Ok a.
Proof. unfold lift. intros H. by injection H as -> ->. Qed.

Lemma text_inv v sty t : text v sty = Ok t → ∃ s, v = VStr s ∧ t = text_of s sty.
Proof. destruct v; try discriminate. intros H. injection H as <-. eauto. Qed.

(** The last part of a panel is the description the record holds when
    the panel is made, truncated to [max_desc_len] cells. *)
Lemma panel_of_description wide l w w' parts :
  panel_of wide l w = (w', Ok parts) →
  ∃ d, heap w' l !! "description" = Some (VStr d)
       ∧ list.last parts
         = Some (truncate wide max_desc_len (text_of d (lit "green"))).
Proof.
  unfold panel_of. cbv zeta. intros H.
  apply bind_M_inv in H as (repo & w1 & _ & H).
  apply bind_M_inv in H as (stats & w2 & _ & H).
  apply bind_M_inv in H as (dr & w3 & _ & H).
  apply bind_M_inv in H as (? & w4 & _ & H).
  apply bind_M_inv in H as (? & w5 & _ & H).
  apply bind_M_inv in H as (repo' & w6 & Hread & H).
  injection Hread as -> <-.
  apply bind_M_inv in H as (name & w7 & Hname & H).
  apply lift_inv in Hname as [-> _].
  apply bind_M_inv in H as (language & w8 & Hlang & H).
  apply lift_inv in Hlang as [-> _].
  apply bind_M_inv in H as (description & w9 & Hdesc & H).
  apply lift_inv in Hdesc as [-> Hdesc].
  apply bind_inv in Hdesc as (v & Hget & Htext).
  apply text_inv in Htext as (d & -> & ->).
  injection H as <- <-.
  exists d. split; [|reflexivity].
  unfold getitem in Hget. destruct (_ !! "description") eqn:E; [|discriminate].
  by injection Hget as ->.
Qed.

(** C9: the grid layout cuts a description by display width.  Whatever
    characters the toolkit takes as wide, as long as the ellipsis marker
    is not one of them: a text of at most 90 cells is left as it is; a
    longer one becomes a proper prefix of itself followed by the
    ellipsis marker, 90 cells at most; 46 wide characters, 92 cells, are
    cut to 44 and the marker, while 90 narrow characters are kept and 91
    are cut to 89 and the marker; and the last part of every panel the
    layout makes is the record's description, cut at [max_desc_len] = 90
    in this way. *)
Theorem grid_truncates_by_width (wide : N → bool) :
  wide ELLIPSIS = false →
  (∀ t, cell_len wide (plain t) ≤ 90 → truncate wide max_desc_len t = t)
  ∧ (∀ t, 90 < cell_len wide (plain t) →
          ∃ kept, plain (truncate wide max_desc_len t) = kept ++ [ELLIPSIS]
                  ∧ kept `prefix_of` plain t
                  ∧ kept ≠ plain t
                  ∧ cell_len wide (plain (truncate wide max_desc_len t)) ≤ 90)
  ∧ (∀ c sty, wide c = true →
              truncate wide max_desc_len (text_of (replicate 46 c) sty)
              = text_of (replicate 44 c ++ [ELLIPSIS]) sty)
  ∧ (∀ c sty, wide c = false →
              truncate wide max_desc_len (text_of (replicate 90 c) sty)
              = text_of (replicate 90 c) sty
              ∧ truncate wide max_desc_len (text_of (replicate 91 c) sty)
                = text_of (replicate 89 c ++ [ELLIPSIS]) sty)
  ∧ (∀ l w w' parts,
        panel_of wide l w = (w', Ok parts) →
        ∃ d, heap w' l !! "description" = Some (VStr d)
             ∧ list.last parts
               = Some (truncate wide max_desc_len (text_of d (lit "green")))).
Proof.
  intros Hell.
  assert (∀ t, cell_len wide (plain t) ≤ 90 → truncate wide max_desc_len t = t) as Hkeep.
  { intros t Ht. unfold truncate, max_desc_len.
    destruct (90 <? cell_len wide (plain t)) eqn:E; [apply Z.ltb_lt in E; lia|done]. }
  assert (∀ s sty, 90 < cell_len wide s →
            truncate wide max_desc_len (text_of s sty)
            = text_of (fit wide 89 s ++ [ELLIPSIS]) sty) as Hcut.
  { intros s sty Hs. unfold truncate, max_desc_len, text_of. simpl.
    destruct (90 <? cell_len wide s) eqn:E; [done|apply Z.ltb_ge in E; lia]. }
  split; [exact Hkeep|]. split; [|split; [|split]].
  - intros t Ht. unfold truncate, max_desc_len.
    destruct (90 <? cell_len wide (plain t)) eqn:E; [|apply Z.ltb_ge in E; lia].
    simpl. exists (fit wide 89 (plain t)).
    pose proof (cell_len_fit wide (plain t) 89 ltac:(lia)) as Hfit.
    split; [done|]. split; [apply fit_prefix|]. split.
    + intros Heq. rewrite Heq in Hfit. lia.
    + rewrite cell_len_app.
      change (cell_len wide [ELLIPSIS]) with (cell_width wide ELLIPSIS + 0).
      unfold cell_width. rewrite Hell.
      change (90 - 1) with 89. lia.
  - intros c sty Hc.
    rewrite Hcut by (rewrite cell_len_replicate; unfold cell_width; rewrite Hc; lia).
    rewrite fit_replicate by lia. unfold cell_width. rewrite Hc. reflexivity.
  - intros c sty Hc. split.
    + apply Hkeep. unfold text_of. cbn [plain].
      rewrite cell_len_replicate. unfold cell_width.
      rewrite Hc. lia.
    + rewrite Hcut by (rewrite cell_len_replicate; unfold cell_width; rewrite Hc; lia).
      rewrite fit_replicate by lia. unfold cell_width. rewrite Hc. reflexivity.
  - apply panel_of_description.
Qed.

Lemma grid_truncates_by_width_witness :
  truncate cjk max_desc_len (text_of (replicate 46 20013%N) (lit "green"))
  = text_of (replicate 44 20013%N ++ [ELLIPSIS]) (lit "green")
  ∧ truncate cjk max_desc_len (text_of (replicate 90 120%N) (lit "green"))
    = text_of (replicate 90 120%N) (lit "green")
  ∧ truncate cjk max_desc_len (text_of (replicate 91 120%N) (lit "green"))
    = text_of (replicate 89 120%N ++ [ELLIPSIS]) (lit "green").
Proof.
  pose proof (grid_truncates_by_width cjk eq_refl) as (_ & _ & Hwide & Hnarrow & _).
  split; [apply Hwide; reflexivity|].
  apply Hnarrow. reflexivity.
Defined.

(* ===================================================================== *)
(** * Further properties                                                  *)
(* ===================================================================== *)

(** ** shorten_count and the sentinel *)

Lemma uint_chars_inj u : ∀ u', uint_chars u = uint_chars u' → u = u'.
Proof.
  induction u as [|u IH|u IH|u IH|u IH|u IH|u IH|u IH|u IH|u IH|u IH];
    intros [|u'|u'|u'|u'|u'|u'|u'|u'|u'|u'] H;
    unfold uint_chars, digit_char in H; fold uint_chars in H; simpl in H;
    try discriminate H; try reflexivity;
    injection H as H; f_equal; by apply IH.
Qed.

Lemma str_of_N_inj n n' : str_of_N n = str_of_N n' → n = n'.
Proof.
  unfold str_of_N. intros H. apply DecimalN.Unsigned.to_uint_inj.
  by apply uint_chars_inj.
Qed.

Lemma str_of_N_first n : ∃ c rest, str_of_N n = c :: rest ∧ (48 ≤ c)%N.
Proof.
  pose proof (str_of_N_nonempty n) as Hne. unfold str_of_N in *.
  destruct (N.to_uint n); simpl in *; try done;
    eexists _, _; (split; [reflexivity|]); unfold digit_char; lia.
Qed.

(** Distinct ints print differently. *)
Lemma str_of_int_inj n n' : str_of_int n = str_of_int n' → n = n'.
Proof.
  assert (∀ p m, str_of_int (Zneg p) = str_of_N m → False) as Hsign.
  { intros p m H. simpl in H. destruct (str_of_N_first m) as (c & rest & Hm & Hc).
    rewrite Hm in H. change (lit "-") with [45%N] in H. simpl in H.
    injection H as H _. lia. }
  destruct n as [|p|p], n' as [|p'|p']; intros H; try reflexivity;
    try (exfalso; by eapply Hsign); try (exfalso; symmetry in H; by eapply Hsign).
  - apply (str_of_N_inj 0 (Npos p')) in H. lia.
  - apply (str_of_N_inj (Npos p) 0) in H. lia.
  - apply (str_of_N_inj (Npos p) (Npos p')) in H. lia.
  - simpl in H. change (lit "-") with [45%N] in H. simpl in H.
    injection H as H. apply (str_of_N_inj (Npos p) (Npos p')) in H. lia.
Qed.


(** From 1000 on, the result is the number itself or ends in "k". *)
Lemma shorten_count_shape number s :
  1000 ≤ number → shorten_count number = Ok s →
  s = str_of_int number ∨ ∃ digits, s = digits ++ lit "k".
Proof.
  intros Hge. unfold shorten_count.
  destruct (number <? 1000) eqn:E; [apply Z.ltb_lt in E; lia|].
  destruct (new_number number) as [r|e]; [|discriminate]. rewrite bind_Ok.
  destruct (r mod 1000 =? 0).
  - destruct (index (str_of_int r) 0) as [c|e]; [|discriminate].
    rewrite bind_Ok. intros H. injection H as <-. right. by exists [c].
  - destruct (r <? 1000).
    + intros H. injection H as <-. by left.
    + destruct (int_truediv_float r (float_lit 1000)) as [y|e]; [|discriminate].
      rewrite bind_Ok. intros H. injection H as <-. right. by eexists.
Qed.

(** X1: the sentinel survives shortening, and no other number turns
    into it: [shorten_count] returns ["-1"] for -1 and for no other
    number, so [get_stats] leaves out a shortened count exactly when the
    count was -1. *)
Theorem shorten_count_sentinel number s glyph :
  shorten_count number = Ok s →
  (s = lit "-1" ↔ number = -1) ∧ (token (VStr s) glyph = [] ↔ number = -1).
Proof.
  intros Hs.
  assert (s = lit "-1" ↔ number = -1) as Hiff.
  { split.
    - intros ->. destruct (decide (number < 1000)) as [Hlt|Hge].
      + rewrite shorten_count_below_1000 in Hs by done.
        injection Hs as Hs. by apply (str_of_int_inj number (-1)).
      + destruct (shorten_count_shape number _ ltac:(lia) Hs) as [H | [digits H]].
        * apply (str_of_int_inj (-1) number) in H. lia.
        * change (lit "-1") with ([45%N] ++ [49%N]) in H.
          change (lit "k") with [107%N] in H.
          apply app_inj_tail in H as [_ H]. discriminate.
    - intros ->. vm_compute in Hs. by injection Hs as <-. }
  split; [done|]. rewrite token_empty. rewrite <- Hiff. split; [|by intros ->].
  intros H. by injection H.
Qed.

Lemma shorten_count_sentinel_witness :
  (lit "-1" = lit "-1" ↔ -1 = -1) ∧ (token (VStr (lit "-1")) STAR = [] ↔ -1 = -1).
Proof. apply (shorten_count_sentinel (-1)). vm_compute; reflexivity. Defined.

(** X2: below 1000 distinct numbers are shown differently, while from
    1000 on different numbers share a result: 1010 and 1100 both give
    ["1.1k"]. *)
Theorem shorten_count_inj_below_1000 :
  (∀ n m s, n < 1000 → m < 1000 →
            shorten_count n = Ok s → shorten_count m = Ok s → n = m)
  ∧ shorten_count 1010 = Ok (lit "1.1k")
  ∧ shorten_count 1100 = Ok (lit "1.1k").
Proof.
  split; [|split; vm_compute; reflexivity].
  intros n m s Hn Hm. rewrite !shorten_count_below_1000 by done.
  intros H1 H2. injection H1 as <-. injection H2 as H2.
  symmetry. by apply str_of_int_inj.
Qed.

Lemma shorten_count_inj_below_1000_witness : 999 = 999.
Proof.
  apply (proj1 shorten_count_inj_below_1000 999 999 (lit "999")); try lia;
    vm_compute; reflexivity.
Defined.















(** ** get_stats: what it raises *)

Lemma stat_returns (repo : dict) key glyph :
  (∃ s, stat repo key glyph = Ok s) ↔ is_Some (repo !! key).
Proof.
  unfold stat, getitem. destruct (repo !! key) as [v|]; simpl.
  - split; [eauto|]. intros _. destruct (ne v _); eauto.
  - split; [by intros [s Hs] | by intros [v Hv]].
Qed.

Lemma stat_raises (repo : dict) key glyph e :
  stat repo key glyph = Raise e → e = KeyError key ∧ repo !! key = None.
Proof.
  unfold stat, getitem. destruct (repo !! key) as [v|]; simpl.
  - by destruct (ne v _).
  - intros H. by injection H as <-.
Qed.

Lemma get_stats_returns (repo : dict) :
  (∃ s, get_stats repo = Ok s) ↔ has_counts repo.
Proof.
  unfold get_stats, has_counts.
  pose proof (stat_returns repo "stargazers_count" STAR) as H1.
  pose proof (stat_returns repo "forks_count" FORK) as H2.
  pose proof (stat_returns repo "watchers_count" EYES) as H3.
  destruct (stat repo "stargazers_count" STAR) as [s1|e1];
    destruct (stat repo "forks_count" FORK) as [s2|e2];
    destruct (stat repo "watchers_count" EYES) as [s3|e3]; simpl;
    (split; [intros [s H]; try discriminate H | intros (Ha & Hb & Hc)]).
  all: try (split; [|split]; [apply H1|apply H2|apply H3]; eauto).
  all: try (apply H1 in Ha as [? Ha]; discriminate Ha).
  all: try (apply H2 in Hb as [? Hb]; discriminate Hb).
  all: try (apply H3 in Hc as [? Hc]; discriminate Hc).
  eauto.
Qed.

(** X4: [get_stats] returns exactly for the records that have the
    three count keys, whatever they hold; otherwise it raises [KeyError]
    for the first key missing in the order stars, forks, watchers. *)
Theorem get_stats_key_errors (repo : dict) :
  ((∃ s, get_stats repo = Ok s) ↔ has_counts repo)
  ∧ (∀ e, get_stats repo = Raise e →
          (e = KeyError "stargazers_count" ∧ repo !! "stargazers_count" = None)
          ∨ (e = KeyError "forks_count" ∧ is_Some (repo !! "stargazers_count")
             ∧ repo !! "forks_count" = None)
          ∨ (e = KeyError "watchers_count" ∧ is_Some (repo !! "stargazers_count")
             ∧ is_Some (repo !! "forks_count")
             ∧ repo !! "watchers_count" = None)).
Proof.
  split; [apply get_stats_returns|].
  intros e. unfold get_stats.
  destruct (stat repo "stargazers_count" STAR) as [s1|e1] eqn:E1.
  - assert (is_Some (repo !! "stargazers_count")) by (apply (stat_returns _ _ STAR); eauto).
    rewrite bind_Ok.
    destruct (stat repo "forks_count" FORK) as [s2|e2] eqn:E2.
    + assert (is_Some (repo !! "forks_count")) by (apply (stat_returns _ _ FORK); eauto).
      rewrite bind_Ok.
      destruct (stat repo "watchers_count" EYES) as [s3|e3] eqn:E3; [discriminate|].
      intros He. injection He as <-. apply stat_raises in E3 as [-> ?]. auto 10.
    + intros He. injection He as <-. apply stat_raises in E2 as [-> ?]. auto 10.
  - intros He. injection He as <-. apply stat_raises in E1 as [-> ?]. auto.
Qed.

(** ** list_layout: when it returns, what it prints, what it leaves *)

Lemma bind_returns {A B} (r : result A) (k : A → result B) :
  (∃ b, (r ≫= k) = Ok b) ↔ ∃ a, r = Ok a ∧ ∃ b, k a = Ok b.
Proof.
  destruct r as [a|e]; simpl.
  - split; [intros [b Hb]; eauto | intros (a' & Ha & b & Hb)].
    injection Ha as <-. eauto.
  - split; [by intros [b Hb] | by intros (a & Ha & _)].
Qed.

Lemma getitem_Ok (d : dict) k v : getitem d k = Ok v ↔ d !! k = Some v.
Proof.
  unfold getitem. destruct (d !! k) as [v'|]; split; intros H;
    try discriminate; by injection H as ->.
Qed.

Lemma text_returns v sty : (∃ t, text v sty = Ok t) ↔ ∃ s, v = VStr s.
Proof.
  destruct v; simpl; split; intros [x Hx]; try discriminate; eauto.
Qed.

(** A value is shown as a [Text], or replaced when it is falsy. *)
Lemma shown_or_replaced {A} v (shown : value → result A) (other : A) :
  (∀ s, ∃ a, shown (VStr s) = Ok a) →
  (∀ v', (∃ a, shown v' = Ok a) → ∃ s, v' = VStr s) →
  (∃ a, (if truthy v then shown v else Ok other) = Ok a) ↔ text_or_falsy v.
Proof.
  intros Hstr Honly. unfold text_or_falsy.
  destruct (truthy v) eqn:E.
  - split; [intros H; right; by apply Honly | intros [H | [s ->]]; [done|apply Hstr]].
  - split; [by left | eauto].
Qed.

Lemma date_range_returns {A} (repo : dict) (f : str → A) (other : A) :
  (∃ a, (if has_date_range repo
         then s ← date_range_text repo; Ok (f s) else Ok other) = Ok a)
  ↔ date_range_ok repo.
Proof.
  unfold has_date_range, has_key, date_range_text, date_range_ok, getitem,
    text_or_falsy.
  destruct (repo !! "date_range") as [v|] eqn:E; simpl.
  - destruct (truthy v) eqn:Ev; simpl.
    + split.
      * intros [a Ha] v' Hv'. injection Hv' as <-. right.
        destruct v; try discriminate. eauto.
      * intros H. destruct (H v eq_refl) as [H'|[s ->]]; [congruence|]. eauto.
    + split; [|eauto]. intros _ v' Hv'. injection Hv' as <-. by left.
  - split; [|eauto]. by intros _ v' Hv'.
Qed.

Lemma render_repo_returns (repo : dict) :
  (∃ group, render_repo repo = Ok group) ↔ listable repo.
Proof.
  unfold render_repo, listable. cbv zeta.
  rewrite bind_returns. setoid_rewrite bind_returns.
  setoid_rewrite bind_returns. setoid_rewrite bind_returns.
  setoid_rewrite bind_returns. setoid_rewrite bind_returns.
  setoid_rewrite bind_returns. setoid_rewrite bind_returns.
  setoid_rewrite bind_returns.
  setoid_rewrite getitem_Ok.
  rewrite <- get_stats_returns.
  split.
  - intros (stats & Hstats & fn & Hfn & title & Htitle & url & Hurl & lang & Hlang
            & lcol & Hlcol & dcol & Hdcol & desc & Hdesc & body & Hbody & _).
    split; [by exists stats|]. split.
    { assert (∃ t, text fn [] = Ok t) as Ht by eauto.
      apply text_returns in Ht as [s ->]. by exists s. }
    split; [by exists url|]. split.
    { exists lang. split; [done|].
      apply (shown_or_replaced lang (λ v, text v (lit "bold cyan"))
               (text_of (lit "unknown language") [])); [by eauto| |by eauto].
      intros v' H. by apply text_returns in H. }
    split.
    { apply (date_range_returns repo (λ s, text_of s (lit "bold cyan"))
               (text_of [] [])). by exists dcol. }
    exists desc. split; [done|].
    unfold text_or_falsy. destruct (truthy desc) eqn:E; [|by left].
    right. destruct desc; try discriminate. eauto.
  - intros ([stats Hstats] & (s & Hfn) & [url Hurl] & (lang & Hlang & Hlt)
            & Hdr & (desc & Hdesc & Hdt)).
    exists stats. split; [done|]. exists (VStr s). split; [done|].
    eexists. split; [reflexivity|]. exists url. split; [done|].
    exists lang. split; [done|].
    destruct (proj2 (shown_or_replaced lang (λ v, text v (lit "bold cyan"))
                       (text_of (lit "unknown language") [])
                       ltac:(by eauto)
                       ltac:(intros v' H; by apply text_returns in H)) Hlt)
      as [lcol Hlcol].
    exists lcol. split; [done|].
    destruct (proj2 (date_range_returns repo (λ s, text_of s (lit "bold cyan"))
                       (text_of [] [])) Hdr) as [dcol Hdcol].
    exists dcol. split; [done|]. exists desc. split; [done|].
    destruct Hdt as [Hf | [d ->]].
    + rewrite Hf. eauto.
    + destruct (truthy (VStr d)); eauto.
Qed.

Lemma print_repo_Ok l w group :
  render_repo (heap w l) = Ok group →
  print_repo l w = (mkWorld (heap w) (console w ++ [column group]), Ok ()).
Proof.
  intros H. unfold print_repo, mbind, M_bind, bind_M, read, lift, print.
  simpl. by rewrite H.
Qed.

Lemma print_repo_Raise l w e :
  render_repo (heap w l) = Raise e → print_repo l w = (w, Raise e).
Proof.
  intros H. unfold print_repo, mbind, M_bind, bind_M, read, lift, print.
  simpl. by rewrite H.
Qed.

Lemma for_M_cons {A B} (body : A → M B) x xs w :
  for_M body (x :: xs) w
  = match body x w with
    | (w1, Ok b) => match for_M body xs w1 with
                    | (w2, Ok bs) => (w2, Ok (b :: bs))
                    | (w2, Raise e) => (w2, Raise e)
                    end
    | (w1, Raise e) => (w1, Raise e)
    end.
Proof.
  simpl. unfold bind_M. destruct (body x w) as [w1 [b|e]]; [|done].
  by destruct (for_M body xs w1) as [w2 [bs|e]].
Qed.

(** All records render: one column each, in order. *)
Lemma print_repos_Ok refs : ∀ w groups,
  rendered w refs groups →
  for_M print_repo refs w
  = (mkWorld (heap w) (console w ++ map column groups), Ok (map (λ _, ()) refs)).
Proof.
  induction refs as [|l refs IH]; intros w groups H.
  - apply Forall2_nil_inv_l in H as ->. simpl. unfold ret_M.
    rewrite app_nil_r. by destruct w.
  - apply Forall2_cons_inv_l in H as (g & groups' & Hg & Hrest & ->).
    rewrite for_M_cons, (print_repo_Ok _ _ _ Hg).
    rewrite (IH (mkWorld (heap w) (console w ++ [column g])) groups' Hrest).
    simpl. by rewrite <- app_assoc.
Qed.

(** A record does not render: the columns before it, then the exception. *)
Lemma print_repos_Raise pre : ∀ w groups l post e,
  rendered w pre groups →
  render_repo (heap w l) = Raise e →
  for_M print_repo (pre ++ l :: post) w
  = (mkWorld (heap w) (console w ++ map column groups), Raise e).
Proof.
  induction pre as [|x pre IH]; intros w groups l post e H He.
  - apply Forall2_nil_inv_l in H as ->. simpl app.
    rewrite for_M_cons, (print_repo_Raise _ _ _ He). simpl.
    rewrite app_nil_r. by destruct w.
  - apply Forall2_cons_inv_l in H as (g & groups' & Hg & Hrest & ->).
    change ((x :: pre) ++ l :: post) with (x :: (pre ++ l :: post)).
    rewrite for_M_cons, (print_repo_Ok _ _ _ Hg).
    rewrite (IH (mkWorld (heap w) (console w ++ [column g])) groups' l post e
               Hrest He).
    simpl. by rewrite <- app_assoc.
Qed.

(** Either all records render, or there is a first one that does not. *)
Lemma rendered_or_not w refs :
  (∃ groups, rendered w refs groups)
  ∨ (∃ pre l post groups e,
       refs = pre ++ l :: post ∧ rendered w pre groups
       ∧ render_repo (heap w l) = Raise e).
Proof.
  induction refs as [|x refs IH].
  - left. exists []. constructor.
  - destruct (render_repo (heap w x)) as [g|e] eqn:Hx.
    + destruct IH as [[groups H] | (pre & l & post & groups & e & -> & H & He)].
      * left. exists (g :: groups). by constructor.
      * right. exists (x :: pre), l, post, (g :: groups), e.
        split; [done|]. split; [by constructor | done].
    + right. exists [], x, refs, [], e. split; [done|]. split; [constructor|done].
Qed.

Lemma list_layout_loop repos :
  list_layout repos
  = (_ ← for_M print_repo repos; print (column [Rule (lit "bright_yellow")])).
Proof. reflexivity. Qed.

Lemma list_layout_Ok repos w groups :
  rendered w repos groups →
  list_layout repos w
  = (mkWorld (heap w)
       (console w ++ map column groups ++ [column [Rule (lit "bright_yellow")]]),
     Ok ()).
Proof.
  intros H. rewrite list_layout_loop. unfold mbind, M_bind, bind_M.
  rewrite (print_repos_Ok _ _ _ H). unfold print. simpl. by rewrite <- app_assoc.
Qed.

Lemma list_layout_Raise pre l post w groups e :
  rendered w pre groups →
  render_repo (heap w l) = Raise e →
  list_layout (pre ++ l :: post) w
  = (mkWorld (heap w) (console w ++ map column groups), Raise e).
Proof.
  intros H He. rewrite list_layout_loop. unfold mbind, M_bind, bind_M.
  by rewrite (print_repos_Raise _ _ _ _ _ _ H He).
Qed.

(** X5: the list layout never writes to the records: whatever the
    input and however the call ends, every record is as before. *)
Theorem list_layout_leaves_records repos w :
  heap (list_layout repos w).1 = heap w.
Proof.
  destruct (rendered_or_not w repos)
    as [[groups H] | (pre & l & post & groups & e & -> & H & He)].
  - by rewrite (list_layout_Ok _ _ _ H).
  - by rewrite (list_layout_Raise _ _ _ _ _ _ H He).
Qed.

(** X6: the list layout returns exactly when every record has the three
    counts, a str [full_name], an [html_url], a language and a
    description that are str or falsy, and a date range that, if there,
    is str or falsy.  It then prints one column of eight renderables per
    record, in order, and a closing rule. *)
Theorem list_layout_returns repos w :
  ((list_layout repos w).2 = Ok () ↔ Forall (λ l, listable (heap w l)) repos)
  ∧ (Forall (λ l, listable (heap w l)) repos →
     ∃ groups,
       rendered w repos groups
       ∧ Forall (λ g, length g = 8%nat) groups
       ∧ console (list_layout repos w).1
         = console w ++ map column groups ++ [column [Rule (lit "bright_yellow")]]).
Proof.
  assert (∀ refs groups, rendered w refs groups →
            Forall (λ l, listable (heap w l)) refs
            ∧ Forall (λ g, length g = 8%nat) groups) as Hall.
  { intros refs groups H. induction H as [|l g refs groups Hg _ [IH1 IH2]];
      [by split|].
    split; constructor; try done.
    - apply render_repo_returns. eauto.
    - clear -Hg. unfold render_repo in Hg.
      repeat (apply bind_inv in Hg as (? & _ & Hg)). by injection Hg as <-. }
  assert (Forall (λ l, listable (heap w l)) repos → ∃ groups, rendered w repos groups)
    as Hex.
  { intros Hl. destruct (rendered_or_not w repos)
      as [[groups H] | (pre & l & post & groups & e & -> & H & He)]; [eauto|].
    apply Forall_app in Hl as [_ Hl]. apply Forall_inv in Hl.
    apply render_repo_returns in Hl as [g Hg]. congruence. }
  split; [split|].
  - intros Hok. destruct (rendered_or_not w repos)
      as [[groups H] | (pre & l & post & groups & e & -> & H & He)].
    + by apply (Hall _ groups).
    + by rewrite (list_layout_Raise _ _ _ _ _ _ H He) in Hok.
  - intros Hl. destruct (Hex Hl) as [groups H]. by rewrite (list_layout_Ok _ _ _ H).
  - intros Hl. destruct (Hex Hl) as [groups H]. exists groups.
    split; [done|]. split; [by apply (Hall repos)|].
    by rewrite (list_layout_Ok _ _ _ H).
Qed.

(** X7: at the first record it cannot render the list layout stops:
    the columns of the records before it are printed, the closing rule
    is not, and the exception of that record is raised. *)
Theorem list_layout_stops_at_first_error pre l post w groups e :
  rendered w pre groups →
  render_repo (heap w l) = Raise e →
  (list_layout (pre ++ l :: post) w).2 = Raise e
  ∧ console (list_layout (pre ++ l :: post) w).1 = console w ++ map column groups
  ∧ length groups = length pre.
Proof.
  intros H He. rewrite (list_layout_Raise _ _ _ _ _ _ H He). simpl.
  split; [done|]. split; [done|]. symmetry. by eapply Forall2_length.
Qed.

(** ** table_layout: what it shows, when it returns, what it prints *)

Lemma default_None_run l k w :
  default_None l k w
  = match heap w l !! k with
    | None => (w, Raise (KeyError k))
    | Some v =>
        if truthy v then (w, Ok ())
        else (mkWorld (<[l := <[k := VStr (lit "None")]> (heap w l)]> (heap w))
                (console w), Ok ())
    end.
Proof.
  unfold default_None, mbind, M_bind, bind_M, read, lift, getitem. simpl.
  destruct (heap w l !! k) as [v|]; [|done]. simpl. by destruct (truthy v).
Qed.

(** What a successful defaulting step leaves. *)
Lemma default_None_Ok l k w w1 u :
  default_None l k w = (w1, Ok u) →
  ∃ v, heap w l !! k = Some v
       ∧ heap w1 l = <[k := defaulted v]> (heap w l)
       ∧ (∀ l', l' ≠ l → heap w1 l' = heap w l')
       ∧ console w1 = console w.
Proof.
  destruct u.
  rewrite default_None_run. destruct (heap w l !! k) as [v|] eqn:Hv; [|discriminate].
  intros Hrun. exists v. split; [done|]. unfold defaulted.
  destruct (truthy v); injection Hrun as <-; cbn [heap console].
  - by rewrite insert_id.
  - rewrite fn_lookup_insert. split; [done|]. split; [|done].
    intros l' Hl'. by rewrite fn_lookup_insert_ne.
Qed.

Lemma read_inv l w w1 d : read l w = (w1, Ok d) → w1 = w ∧ d = heap w l.
Proof. unfold read. intros H. by injection H as <- <-. Qed.

Lemma ret_M_inv {A} (a b : A) w w1 : ret_M a w = (w1, Ok b) → w1 = w ∧ b = a.
Proof. unfold ret_M. intros H. by injection H as <- <-. Qed.

(** The parts of [get_stats] and of the date range read no language and
    no description. *)
Lemma get_stats_same_counts (d d' : dict) :
  (∀ k, ¬ defaultable k → d' !! k = d !! k) → get_stats d' = get_stats d.
Proof.
  intros H. unfold get_stats, stat, getitem.
  rewrite !H; [done| | |]; unfold defaultable; intros [Hk|Hk]; discriminate Hk.
Qed.

Lemma has_date_range_same (d d' : dict) :
  (∀ k, ¬ defaultable k → d' !! k = d !! k) → has_date_range d' = has_date_range d.
Proof.
  intros H. unfold has_date_range, has_key.
  rewrite H; [done|]. unfold defaultable. intros [Hk|Hk]; discriminate Hk.
Qed.

Lemma date_line_facts (repo : dict) (f : str → str) line :
  (if has_date_range repo then s ← date_range_text repo; Ok (f s) else Ok [])
  = Ok line →
  (has_date_range repo = false → line = [])
  ∧ (∀ s, repo !! "date_range" = Some (VStr s) → s ≠ [] →
          line = f (replace s (lit "stars") STAR)).
Proof.
  unfold has_date_range, has_key, date_range_text, getitem.
  destruct (repo !! "date_range") as [v|]; simpl.
  - destruct (truthy v) eqn:Ev; simpl.
    + destruct v; try discriminate. intros H. injection H as <-.
      split; [done|]. intros s' Hs' _. by injection Hs' as <-.
    + intros H. injection H as <-. split; [done|].
      intros s Hs Hne. injection Hs as ->. simpl in Ev.
      unfold str_eqb in Ev. by rewrite bool_decide_eq_false_2 in Ev.
  - intros H. injection H as <-. by split.
Qed.

(** One row: what it shows and what it leaves behind. *)
Lemma table_row_of_Ok l w w' row :
  table_row_of l w = (w', Ok row) →
  row_of w l row
  ∧ console w' = console w
  ∧ only_defaults [l] w w'.
Proof.
  intros H. split; [|split]; cycle 2.
  { pose proof (tracks_table_row_of l w) as [Ht _]. by rewrite H in Ht. }
  all: revert H; unfold table_row_of; cbv zeta; intros H.
  all: apply bind_M_inv in H as (repo & w1 & Hread & H);
       apply read_inv in Hread as [-> ->].
  all: apply bind_M_inv in H as (stats & w2 & Hstats & H);
       apply lift_inv in Hstats as [-> Hstats].
  all: apply bind_M_inv in H as (line & w3 & Hline & H);
       apply lift_inv in Hline as [-> Hline].
  all: apply bind_M_inv in H as (u1 & w4 & Hd1 & H);
       apply default_None_Ok in Hd1 as (vl & Hvl & Hh1 & Ho1 & Hc1).
  all: apply bind_M_inv in H as (u2 & w5 & Hd2 & H);
       apply default_None_Ok in Hd2 as (vd & Hvd & Hh2 & Ho2 & Hc2).
  all: apply bind_M_inv in H as (repo' & w6 & Hread & H);
       apply read_inv in Hread as [-> ->].
  all: apply bind_M_inv in H as (name & w7 & Hname & H);
       apply lift_inv in Hname as [-> Hname]; apply getitem_Ok in Hname.
  all: apply bind_M_inv in H as (lang & w8 & Hlang & H);
       apply lift_inv in Hlang as [-> Hlang]; apply getitem_Ok in Hlang.
  all: apply bind_M_inv in H as (desc & w9 & Hdesc & H);
       apply lift_inv in Hdesc as [-> Hdesc]; apply getitem_Ok in Hdesc.
  all: apply ret_M_inv in H as [-> ->].
  - rewrite Hh1, lookup_insert_ne in Hvd by done.
    rewrite Hh2, Hh1 in Hname, Hlang, Hdesc.
    rewrite lookup_insert_ne, lookup_insert_ne in Hname by done.
    rewrite lookup_insert_ne, lookup_insert_eq in Hlang by done.
    rewrite lookup_insert_eq in Hdesc.
    injection Hlang as <-. injection Hdesc as <-.
    apply date_line_facts in Hline as [Hl1 Hl2].
    split; [done|]. split; [by exists vl|]. split; [by exists vd|].
    exists stats, line. split; [done|]. split; [done|]. split; [done|].
    intros s Hs Hne. by apply Hl2.
  - by rewrite Hc2, Hc1.
Qed.

(** Earlier defaults do not change what a row shows. *)
Lemma row_of_earlier refs w w1 l row :
  only_defaults refs w w1 → row_of w1 l row → row_of w l row.
Proof.
  intros Hod (Hname & (vl & Hvl & Hl) & (vd & Hvd & Hd)
              & stats & line & Hstats & Hcell & Hnone & Hsome).
  assert (∀ k, ¬ defaultable k → heap w1 l !! k = heap w l !! k) as Hsame.
  { intros k Hk. destruct (Hod l k) as [E | (_ & Hk' & _)]; [done|]. by destruct Hk. }
  assert (∀ k v, heap w1 l !! k = Some v →
            ∃ v0, heap w l !! k = Some v0 ∧ defaulted v = defaulted v0) as Hdef.
  { intros k v Hv. destruct (Hod l k) as [E | (_ & _ & v0 & Hv0 & Hfalsy & Hnew)].
    - exists v. by rewrite <- E.
    - exists v0. split; [done|]. rewrite Hnew in Hv. injection Hv as <-.
      unfold defaulted at 2. by rewrite Hfalsy. }
  split; [|split; [|split]].
  - rewrite <- Hsame; [done|]. intros [Hk|Hk]; discriminate Hk.
  - destruct (Hdef _ _ Hvl) as (v0 & Hv0 & E). exists v0. by rewrite <- E.
  - destruct (Hdef _ _ Hvd) as (v0 & Hv0 & E). exists v0. by rewrite <- E.
  - exists stats, line.
    rewrite <- (get_stats_same_counts (heap w l) (heap w1 l) Hsame).
    rewrite <- (has_date_range_same (heap w l) (heap w1 l) Hsame).
    split; [done|]. split; [done|]. split; [done|].
    intros s Hs. apply Hsome. rewrite Hsame; [done|]. intros [Hk|Hk]; discriminate Hk.
Qed.

Lemma for_M_Ok_inv {A B} (body : A → M B) x xs w w' bs :
  for_M body (x :: xs) w = (w', Ok bs) →
  ∃ b bs' w1, bs = b :: bs' ∧ body x w = (w1, Ok b) ∧ for_M body xs w1 = (w', Ok bs').
Proof.
  rewrite for_M_cons. destruct (body x w) as [w1 [b|e]] eqn:E1; [|discriminate].
  destruct (for_M body xs w1) as [w2 [bs'|e]] eqn:E2; [|discriminate].
  intros H. injection H as <- <-. by exists b, bs', w1.
Qed.

Lemma table_rows_Ok repos : ∀ w w' rows,
  for_M table_row_of repos w = (w', Ok rows) →
  Forall2 (row_of w) repos rows ∧ console w' = console w.
Proof.
  induction repos as [|l repos IH]; intros w w' rows H.
  - simpl in H. apply ret_M_inv in H as [-> ->]. split; [constructor|done].
  - apply for_M_Ok_inv in H as (row & rows' & w1 & -> & Hrow & Hrest).
    apply table_row_of_Ok in Hrow as (Hrow & Hc & Hod).
    destruct (IH _ _ _ Hrest) as [IH1 IH2]. split; [|congruence].
    constructor; [done|].
    eapply Forall2_impl; [|exact IH1]. intros l' row'. by apply (row_of_earlier [l]).
Qed.

(** X8: when the table layout returns it has printed one table, with
    one row per record in the order given; a row shows the record's
    name, its language and description as they were before the call (a
    falsy one as ["None"]) and its stats, followed on a new line by the
    date range when there is one. *)
Theorem table_layout_rows repos w w' :
  table_layout repos w = (w', Ok ()) →
  ∃ rows, console w' = console w ++ [Table table_header rows]
          ∧ Forall2 (row_of w) repos rows.
Proof.
  unfold table_layout. intros H.
  apply bind_M_inv in H as (rows & w1 & Hrows & H).
  apply table_rows_Ok in Hrows as [Hrows Hc].
  unfold print in H. injection H as <-. exists rows. cbn [console].
  by rewrite Hc.
Qed.

Lemma quiet_bind {A B} (m : M A) (k : A → M B) :
  quiet m → (∀ a, quiet (k a)) → quiet (m ≫= k).
Proof.
  intros Hm Hk w. unfold mbind, M_bind, bind_M. specialize (Hm w).
  destruct (m w) as [w1 [a|e]]; simpl in *; [|done].
  by rewrite Hk.
Qed.

Lemma quiet_lift {A} (r : result A) : quiet (lift r).
Proof. by intros w. Qed.

Lemma quiet_ret {A} (a : A) : quiet (ret_M a).
Proof. by intros w. Qed.

Lemma quiet_read l : quiet (read l).
Proof. by intros w. Qed.

Lemma quiet_default_None l k : quiet (default_None l k).
Proof.
  intros w. rewrite default_None_run.
  destruct (heap w l !! k) as [v|]; [|done]. by destruct (truthy v).
Qed.

Lemma quiet_for_M {A B} (body : A → M B) xs :
  (∀ x, quiet (body x)) → quiet (for_M body xs).
Proof.
  intros Hbody. induction xs as [|x xs IH]; [by intros w|].
  simpl. apply (quiet_bind (body x)); [done|]. intros b.
  apply (quiet_bind (for_M body xs)); [done|]. intros bs. apply quiet_ret.
Qed.

Ltac hush :=
  repeat first
    [ apply quiet_read
    | apply quiet_lift
    | apply quiet_ret
    | apply quiet_default_None
    | (apply quiet_bind; [|intros ?]) ].

Lemma quiet_table_row_of l : quiet (table_row_of l).
Proof. unfold table_row_of. cbv zeta. hush. Qed.

Lemma quiet_panel_of wide l : quiet (panel_of wide l).
Proof. unfold panel_of. cbv zeta. hush. Qed.

(** X9: the table and the grid layout print once, at the end: when
    either raises, nothing has been printed. *)
Theorem layouts_print_nothing_on_error wide repos w e :
  ((table_layout repos w).2 = Raise e → console (table_layout repos w).1 = console w)
  ∧ ((grid_layout wide repos w).2 = Raise e →
     console (grid_layout wide repos w).1 = console w).
Proof.
  split.
  - unfold table_layout, mbind, M_bind, bind_M.
    pose proof (quiet_for_M table_row_of repos quiet_table_row_of w) as Hq.
    destruct (for_M table_row_of repos w) as [w1 [rows|e']]; [discriminate|done].
  - unfold grid_layout, mbind, M_bind, bind_M.
    pose proof (quiet_for_M (panel_of wide) repos (quiet_panel_of wide) w) as Hq.
    destruct (for_M (panel_of wide) repos w) as [w1 [rows|e']]; [discriminate|done].
Qed.

Ltac lookups :=
  repeat first [ rewrite lookup_insert_eq | rewrite lookup_insert_ne by done ].

(** The row of a record that has its counts, a well-formed date range, a
    language and a description: the two fields are defaulted, then the
    name is looked up. *)
Lemma table_row_of_run l w :
  has_counts (heap w l) → date_range_ok (heap w l) →
  ∀ vl vd,
    heap w l !! "language" = Some vl →
    heap w l !! "description" = Some vd →
    ∃ w' stats,
      heap w' l = <["description" := defaulted vd]>
                    (<["language" := defaulted vl]> (heap w l))
      ∧ table_row_of l w
        = (w', match heap w l !! "name" with
               | Some name => Ok (mkRow name (defaulted vl) (defaulted vd) stats)
               | None => Raise (KeyError "name")
               end).
Proof.
  intros Hcounts Hdr vl vd Hvl Hvd.
  apply get_stats_returns in Hcounts as [stats Hstats].
  apply (date_range_returns _ (λ s, NEWLINE ++ s) []) in Hdr as [line Hline].
  unfold table_row_of, mbind, M_bind, bind_M, read, lift, ret_M. cbv zeta.
  unfold mbind in Hline.
  cbn [fst snd]. rewrite Hstats, Hline.
  rewrite (default_None_run l "language" w), Hvl.
  destruct (truthy vl) eqn:Etl; cbv iota.
  - rewrite (default_None_run l "description" w), Hvd.
    destruct (truthy vd) eqn:Etd; cbv iota.
    + exists w, (stats ++ line). unfold defaulted. rewrite Etl, Etd. split.
      { by rewrite (insert_id _ "language" vl Hvl), (insert_id _ "description" vd Hvd). }
      unfold getitem. rewrite Hvl, Hvd. by destruct (heap w l !! "name").
    + eexists _, (stats ++ line). unfold defaulted. rewrite Etl, Etd.
      split; cycle 1.
      { unfold getitem. cbn [heap]. rewrite fn_lookup_insert. lookups.
        rewrite Hvl. by destruct (heap w l !! "name"). }
      cbn [heap]. rewrite fn_lookup_insert.
      by rewrite (insert_id _ "language" vl Hvl).
  - rewrite default_None_run. cbn [heap]. rewrite fn_lookup_insert.
    rewrite lookup_insert_ne, Hvd by done.
    destruct (truthy vd) eqn:Etd; cbv iota.
    + eexists _, (stats ++ line). unfold defaulted. rewrite Etl, Etd.
      split; cycle 1.
      { unfold getitem. cbn [heap]. rewrite fn_lookup_insert. lookups.
        rewrite Hvd. by destruct (heap w l !! "name"). }
      cbn [heap]. rewrite fn_lookup_insert.
      rewrite (insert_id _ "description" vd); [done|]. by rewrite lookup_insert_ne.
    + eexists _, (stats ++ line). unfold defaulted. rewrite Etl, Etd.
      split; cycle 1.
      { unfold getitem. cbn [heap]. rewrite !fn_lookup_insert. lookups.
        by destruct (heap w l !! "name"). }
      cbn [heap]. by rewrite !fn_lookup_insert.
Qed.

Lemma table_row_of_tabulable l w w' row :
  table_row_of l w = (w', Ok row) → tabulable (heap w l).
Proof.
  intros H. pose proof (table_row_of_Ok _ _ _ _ H)
    as ((Hname & (vl & Hvl & _) & (vd & Hvd & _) & stats & _ & Hstats & _) & _).
  revert H. unfold table_row_of. cbv zeta. intros H.
  apply bind_M_inv in H as (repo & w1 & Hread & H).
  apply read_inv in Hread as [-> ->].
  apply bind_M_inv in H as (stats' & w2 & Hs & H). apply lift_inv in Hs as [-> _].
  apply bind_M_inv in H as (line & w3 & Hline & _).
  apply lift_inv in Hline as [_ Hline].
  split; [apply get_stats_returns; by exists stats|].
  split; [apply (date_range_returns _ (λ s, NEWLINE ++ s) []); by exists line|].
  by rewrite Hvl, Hvd, Hname.
Qed.

(** Defaults do not change which records can be shown. *)
Lemma tabulable_only_defaults refs w w1 l :
  only_defaults refs w w1 → tabulable (heap w1 l) ↔ tabulable (heap w l).
Proof.
  intros Hod.
  assert (∀ k, ¬ defaultable k → heap w1 l !! k = heap w l !! k) as Hsame.
  { intros k Hk. destruct (Hod l k) as [E | (_ & Hk' & _)]; [done|]. by destruct Hk. }
  assert (∀ k, is_Some (heap w1 l !! k) ↔ is_Some (heap w l !! k)) as Hsome.
  { intros k. destruct (Hod l k) as [E | (_ & _ & v & Hv & _ & Hnew)]; [by rewrite E|].
    by rewrite Hv, Hnew. }
  unfold tabulable, has_counts, date_range_ok.
  rewrite !Hsome. by rewrite (Hsame "date_range") by (intros [Hk|Hk]; discriminate Hk).
Qed.

Lemma table_rows_tabulable repos : ∀ w w' rows,
  for_M table_row_of repos w = (w', Ok rows) →
  Forall (λ l, tabulable (heap w l)) repos.
Proof.
  induction repos as [|l repos IH]; intros w w' rows H; [constructor|].
  apply for_M_Ok_inv in H as (row & rows' & w1 & -> & Hrow & Hrest).
  pose proof (table_row_of_tabulable _ _ _ _ Hrow) as Ht.
  apply table_row_of_Ok in Hrow as (_ & _ & Hod).
  constructor; [done|]. apply IH in Hrest.
  rewrite Forall_forall in Hrest. apply Forall_forall. intros l' Hl'.
  by apply (tabulable_only_defaults [l] w w1 l' Hod), Hrest.
Qed.

(** X10: the table layout raises unless every record has the three
    counts, a name, a language and a description, and a date range that,
    if there, is a str or falsy. *)
Theorem table_layout_needs_keys repos w :
  (table_layout repos w).2 = Ok () → Forall (λ l, tabulable (heap w l)) repos.
Proof.
  unfold table_layout, mbind, M_bind, bind_M.
  destruct (for_M table_row_of repos w) as [w1 [rows|e]] eqn:Hrows; [|discriminate].
  intros _. by eapply table_rows_tabulable.
Qed.

(** X11: the table layout is not all-or-nothing: for a record without a
    name whose language is falsy, the call raises [KeyError] for the
    name after it has overwritten the language with ["None"], and prints
    nothing. *)
Theorem table_layout_raises_after_writing l rest w vl :
  has_counts (heap w l) → date_range_ok (heap w l) →
  heap w l !! "language" = Some vl → truthy vl = false →
  is_Some (heap w l !! "description") →
  heap w l !! "name" = None →
  (table_layout (l :: rest) w).2 = Raise (KeyError "name")
  ∧ heap (table_layout (l :: rest) w).1 l !! "language" = Some (VStr (lit "None"))
  ∧ console (table_layout (l :: rest) w).1 = console w.
Proof.
  intros Hc Hdr Hvl Hfalsy [vd Hvd] Hname.
  destruct (table_row_of_run l w Hc Hdr vl vd Hvl Hvd) as (w' & stats & Hheap & Hrun).
  rewrite Hname in Hrun.
  pose proof (quiet_table_row_of l w) as Hq. rewrite Hrun in Hq.
  unfold table_layout, mbind, M_bind, bind_M. rewrite for_M_cons, Hrun. simpl.
  split; [done|]. split; [|done].
  rewrite Hheap, lookup_insert_ne, lookup_insert_eq by done.
  unfold defaulted. by rewrite Hfalsy.
Qed.

(** X12: defaulting happens once: after either layout has returned,
    running the table or the grid layout on the same records changes no
    record. *)
Theorem layouts_change_nothing_twice wide repos w w1 :
  table_layout repos w = (w1, Ok ()) ∨ grid_layout wide repos w = (w1, Ok ()) →
  ∀ l k, heap (table_layout repos w1).1 l !! k = heap w1 l !! k
         ∧ heap (grid_layout wide repos w1).1 l !! k = heap w1 l !! k.
Proof.
  intros Hfirst l k.
  assert (∀ l k, l ∈ repos → defaultable k → defaulted_at l k w w1) as Hdone.
  { intros l' k' Hl Hk. destruct Hfirst as [H|H].
    - destruct (tracks_table_layout repos w) as [_ Ht]. rewrite H in Ht.
      by apply (Ht ()).
    - destruct (tracks_grid_layout wide repos w) as [_ Ht]. rewrite H in Ht.
      by apply (Ht ()). }
  assert (∀ w2, only_defaults repos w1 w2 → heap w2 l !! k = heap w1 l !! k) as Hfix.
  { intros w2 Hod. destruct (Hod l k) as [E | (Hl & Hk & v & Hv & Hfalsy & _)]; [done|].
    destruct (Hdone l k Hl Hk) as (v0 & _ & Hv0). rewrite Hv0 in Hv.
    injection Hv as <-. by rewrite defaulted_truthy in Hfalsy. }
  split; apply Hfix.
  - apply tracks_table_layout.
  - apply tracks_grid_layout.
Qed.

(** ** list_layout after table_layout or grid_layout *)

(** What the list layout shows for the language and the description. *)
Lemma render_repo_shows (repo : dict) group :
  render_repo repo = Ok group →
  ∃ title stats language_col date_range_col body vl vd,
    group = [ Rule (lit "bright_yellow"); Markup []; Grid title stats; Markup [];
              Grid language_col date_range_col; Markup []; body; Markup [] ]
    ∧ repo !! "language" = Some vl
    ∧ repo !! "description" = Some vd
    ∧ (if truthy vl
       then text vl (lit "bold cyan") = Ok language_col
       else language_col = text_of (lit "unknown language") [])
    ∧ (if truthy vd
       then ∃ s, vd = VStr s ∧ body = Plain (text_of (strip s) (lit "green"))
       else body = Markup (lit "[i green]no description")).
Proof.
  unfold render_repo. cbv zeta. intros H.
  apply bind_inv in H as (stats & _ & H).
  apply bind_inv in H as (fn & _ & H).
  apply bind_inv in H as (title & _ & H).
  apply bind_inv in H as (url & _ & H).
  apply bind_inv in H as (vl & Hvl & H). apply getitem_Ok in Hvl.
  apply bind_inv in H as (lcol & Hlcol & H).
  apply bind_inv in H as (dcol & _ & H).
  apply bind_inv in H as (vd & Hvd & H). apply getitem_Ok in Hvd.
  apply bind_inv in H as (body & Hbody & H).
  injection H as <-. do 5 eexists. exists vl, vd.
  split; [reflexivity|]. split; [done|]. split; [done|]. split.
  - destruct (truthy vl); [done|]. by injection Hlcol as <-.
  - destruct (truthy vd).
    + destruct vd; try discriminate. injection Hbody as <-. eauto.
    + by injection Hbody as <-.
Qed.

(** X13: the defaults are seen by the list layout: once the table or
    the grid layout has returned, the list layout shows for those
    records neither "unknown language" nor "no description"; a language
    or description that was falsy is shown as the text "None". *)
Theorem list_layout_after_defaults wide repos w w1 l group :
  table_layout repos w = (w1, Ok ()) ∨ grid_layout wide repos w = (w1, Ok ()) →
  l ∈ repos →
  render_repo (heap w1 l) = Ok group →
  ∃ title stats language_col date_range_col body,
    group = [ Rule (lit "bright_yellow"); Markup []; Grid title stats; Markup [];
              Grid language_col date_range_col; Markup []; body; Markup [] ]
    ∧ language_col ≠ text_of (lit "unknown language") []
    ∧ body ≠ Markup (lit "[i green]no description")
    ∧ (∀ v, heap w l !! "language" = Some v → truthy v = false →
            language_col = text_of (lit "None") (lit "bold cyan"))
    ∧ (∀ v, heap w l !! "description" = Some v → truthy v = false →
            body = Plain (text_of (lit "None") (lit "green"))).
Proof.
  intros Hfirst Hl Hgroup.
  assert (∀ k, defaultable k → defaulted_at l k w w1) as Hdone.
  { intros k Hk. destruct Hfirst as [H|H].
    - destruct (tracks_table_layout repos w) as [_ Ht]. rewrite H in Ht.
      by apply (Ht ()).
    - destruct (tracks_grid_layout wide repos w) as [_ Ht]. rewrite H in Ht.
      by apply (Ht ()). }
  destruct (Hdone "language" ltac:(by left)) as (vl0 & Hvl0 & Hvl1).
  destruct (Hdone "description" ltac:(by right)) as (vd0 & Hvd0 & Hvd1).
  apply render_repo_shows in Hgroup
    as (title & stats & lcol & dcol & body & vl & vd & -> & Hvl & Hvd & Hlcol & Hbody).
  rewrite Hvl1 in Hvl. injection Hvl as <-.
  rewrite Hvd1 in Hvd. injection Hvd as <-.
  rewrite defaulted_truthy in Hlcol, Hbody. destruct Hbody as (s & Hs & ->).
  exists title, stats, lcol, dcol, (Plain (text_of (strip s) (lit "green"))).
  split; [done|]. split; [|split; [done|split]].
  - intros ->. destruct (defaulted vl0); discriminate.
  - intros v Hv Hfalsy. rewrite Hvl0 in Hv. injection Hv as <-.
    unfold defaulted in Hlcol. rewrite Hfalsy in Hlcol. by injection Hlcol as <-.
  - intros v Hv Hfalsy. rewrite Hvd0 in Hv. injection Hv as <-.
    unfold defaulted in Hs. rewrite Hfalsy in Hs. by injection Hs as <-.
Qed.

(** ** grid_layout: what it shows *)

Lemma panel_of_Ok wide l w w' parts :
  panel_of wide l w = (w', Ok parts) →
  panel_shows wide w l parts ∧ console w' = console w ∧ only_defaults [l] w w'.
Proof.
  intros H. split; [|split].
  3: { pose proof (tracks_panel_of wide l w) as [Ht _]. by rewrite H in Ht. }
  2: { pose proof (quiet_panel_of wide l w) as Hq. by rewrite H in Hq. }
  revert H. unfold panel_of. cbv zeta. intros H.
  apply bind_M_inv in H as (repo & w1 & Hread & H).
  apply read_inv in Hread as [-> ->].
  apply bind_M_inv in H as (stats & w2 & Hstats & H).
  apply lift_inv in Hstats as [-> Hstats].
  apply bind_M_inv in H as (line & w3 & Hline & H).
  apply lift_inv in Hline as [-> Hline].
  apply bind_M_inv in H as (u1 & w4 & Hd1 & H).
  apply default_None_Ok in Hd1 as (vl & Hvl & Hh1 & _ & _).
  apply bind_M_inv in H as (u2 & w5 & Hd2 & H).
  apply default_None_Ok in Hd2 as (vd & Hvd & Hh2 & _ & _).
  apply bind_M_inv in H as (repo' & w6 & Hread & H).
  apply read_inv in Hread as [-> ->].
  apply bind_M_inv in H as (name & w7 & Hname & H).
  apply lift_inv in Hname as [-> Hname].
  apply bind_inv in Hname as (vn & Hvn & Hname). apply getitem_Ok in Hvn.
  apply text_inv in Hname as (sn & -> & ->).
  apply bind_M_inv in H as (lang & w8 & Hlang & H).
  apply lift_inv in Hlang as [-> Hlang].
  apply bind_inv in Hlang as (vl' & Hvl' & Hlang). apply getitem_Ok in Hvl'.
  apply text_inv in Hlang as (sl & -> & ->).
  apply bind_M_inv in H as (desc & w9 & Hdesc & H).
  apply lift_inv in Hdesc as [-> Hdesc].
  apply bind_inv in Hdesc as (vd' & Hvd' & Hdesc). apply getitem_Ok in Hvd'.
  apply text_inv in Hdesc as (sd & -> & ->).
  apply ret_M_inv in H as [-> ->].
  rewrite Hh1, lookup_insert_ne in Hvd by done.
  rewrite Hh2, Hh1 in Hvn, Hvl', Hvd'.
  rewrite lookup_insert_ne, lookup_insert_ne in Hvn by done.
  rewrite lookup_insert_ne, lookup_insert_eq in Hvl' by done.
  rewrite lookup_insert_eq in Hvd'.
  injection Hvl' as Hvl'. injection Hvd' as Hvd'.
  apply (date_line_facts _ (λ s, s ++ NEWLINE)) in Hline as [Hl1 Hl2].
  exists sn, stats, line, sl, sd.
  split; [done|]. split; [done|]. split; [done|]. split; [done|].
  split; [intros s Hs Hne; by apply Hl2|]. split; [by exists vl | by exists vd].
Qed.

Lemma panel_shows_earlier wide refs w w1 l parts :
  only_defaults refs w w1 → panel_shows wide w1 l parts → panel_shows wide w l parts.
Proof.
  intros Hod (name & stats & line & lang & desc & -> & Hname & Hstats & Hnone & Hsome
              & (vl & Hvl & Hl) & (vd & Hvd & Hd)).
  assert (∀ k, ¬ defaultable k → heap w1 l !! k = heap w l !! k) as Hsame.
  { intros k Hk. destruct (Hod l k) as [E | (_ & Hk' & _)]; [done|]. by destruct Hk. }
  assert (∀ k v, heap w1 l !! k = Some v →
            ∃ v0, heap w l !! k = Some v0 ∧ defaulted v = defaulted v0) as Hdef.
  { intros k v Hv. destruct (Hod l k) as [E | (_ & _ & v0 & Hv0 & Hfalsy & Hnew)].
    - exists v. by rewrite <- E.
    - exists v0. split; [done|]. rewrite Hnew in Hv. injection Hv as <-.
      unfold defaulted at 2. by rewrite Hfalsy. }
  exists name, stats, line, lang, desc. split; [done|].
  rewrite <- (get_stats_same_counts (heap w l) (heap w1 l) Hsame).
  rewrite <- (has_date_range_same (heap w l) (heap w1 l) Hsame).
  split; [rewrite <- Hsame; [done|]; intros [Hk|Hk]; discriminate Hk|].
  split; [done|]. split; [done|]. split.
  { intros s Hs. apply Hsome. rewrite Hsame; [done|]. intros [Hk|Hk]; discriminate Hk. }
  split.
  - destruct (Hdef _ _ Hvl) as (v0 & Hv0 & E). exists v0. by rewrite <- E.
  - destruct (Hdef _ _ Hvd) as (v0 & Hv0 & E). exists v0. by rewrite <- E.
Qed.

Lemma panels_Ok wide repos : ∀ w w' panels,
  for_M (panel_of wide) repos w = (w', Ok panels) →
  Forall2 (panel_shows wide w) repos panels ∧ console w' = console w.
Proof.
  induction repos as [|l repos IH]; intros w w' panels H.
  - simpl in H. apply ret_M_inv in H as [-> ->]. split; [constructor|done].
  - apply for_M_Ok_inv in H as (parts & panels' & w1 & -> & Hparts & Hrest).
    apply panel_of_Ok in Hparts as (Hparts & Hc & Hod).
    destruct (IH _ _ _ Hrest) as [IH1 IH2]. split; [|congruence].
    constructor; [done|].
    eapply Forall2_impl; [|exact IH1]. intros l' p'.
    by apply (panel_shows_earlier wide [l]).
Qed.

(** X14: when the grid layout returns it has printed one set of
    columns of width 30, with one panel per record in the order given; a
    panel holds the record's name, its stats, its date range when there
    is one, its language and its description as they were before the
    call (a falsy one as ["None"]), the description passed through
    [truncate] with [max_desc_len]. *)
Theorem grid_layout_panels wide repos w w' :
  grid_layout wide repos w = (w', Ok ()) →
  ∃ panels, console w' = console w ++ [Columns 30 panels]
            ∧ Forall2 (panel_shows wide w) repos panels.
Proof.
  unfold grid_layout. intros H.
  apply bind_M_inv in H as (panels & w1 & Hpanels & H).
  apply panels_Ok in Hpanels as [Hpanels Hc].
  unfold print in H. injection H as <-. exists panels. cbn [console].
  by rewrite Hc.
Qed.

(** ** graph_layout: the series in closed form *)

Lemma range_snoc a b : a ≤ b → range a (b + 1) = range a b ++ [b].
Proof.
  intros H. unfold range.
  replace (Z.to_nat (b + 1 - a)) with (Z.to_nat (b - a) + 1)%nat by lia.
  rewrite seq_app, map_app. simpl. do 2 f_equal. rewrite Z2Nat.id; lia.
Qed.

Lemma lookup_range a b i :
  0 ≤ i < b - a → range a b !! Z.to_nat i = Some (a + i).
Proof.
  intros H. unfold range. rewrite list_lookup_fmap.
  rewrite lookup_seq_lt by lia. simpl. f_equal. lia.
Qed.

Section closed_form.
Variables (star_dates : list Z) (min_date date_delta col_count : Z).
Variable bound : Z → Z.
Hypothesis bounds_ok :
  ∀ k, 1 ≤ k ≤ col_count → lower_date min_date date_delta k = Ok (bound k).
Hypothesis bounds_mono :
  ∀ j k, 1 ≤ j ≤ k → k ≤ col_count → bound j ≤ bound k.

Local Abbreviation entry := (λ i, counted star_dates (bound 1) (bound (i + 1))).

Lemma count_columns_entries (n : nat) : ∀ a,
  n = Z.to_nat (col_count - a) → 1 ≤ a ≤ col_count →
  for_each (count_column star_dates min_date date_delta) (map entry (range 0 a))
    (range a col_count)
  = Ok (map entry (range 0 col_count)).
Proof.
  induction n as [|n IH]; intros a Hn Ha.
  - rewrite (range_nil a col_count) by lia. by replace a with col_count by lia.
  - rewrite (range_cons a col_count) by lia.
    assert (index (map entry (range 0 a)) (a - 1) = Ok (entry (a - 1))) as Hidx.
    { unfold index. destruct (a - 1 <? 0) eqn:E; [apply Z.ltb_lt in E; lia|].
      rewrite list_lookup_fmap, (lookup_range 0 a (a - 1)) by lia. simpl.
      do 3 f_equal. }
    rewrite for_each_cons.
    rewrite (count_column_ok star_dates min_date date_delta col_count bound bounds_ok
               _ a _ ltac:(lia) Hidx), bind_Ok.
    replace (Z.of_nat (length (star_arr star_dates (bound a) (bound (a + 1))))
             + entry (a - 1)) with (entry a).
    + rewrite <- (IH (a + 1)) by lia. rewrite range_snoc, map_app by lia. done.
    + unfold counted. replace (a - 1 + 1) with a by lia.
      rewrite <- (star_arr_adjacent star_dates (bound 1) (bound a) (bound (a + 1))).
      * lia.
      * split; apply bounds_mono; lia.
Qed.

Lemma star_counts_closed_form :
  0 < col_count →
  star_counts star_dates min_date date_delta col_count
  = Ok (map entry (range 0 col_count)).
Proof.
  intros Hc. unfold star_counts.
  rewrite <- (count_columns_entries (Z.to_nat (col_count - 1)) 1) by lia.
  f_equal. unfold range, counted. simpl. by rewrite star_arr_empty.
Qed.
End closed_form.

Section history.
Variables (min_date today col_count : Z).
Hypothesis min_valid : valid_date min_date.
Hypothesis today_valid : valid_date today.
Hypothesis past : min_date ≤ today.
Hypothesis columns : 0 < col_count < 2 * US_PER_DAY.

Local Abbreviation date_delta := (date_delta_of today min_date col_count).

Lemma column_start_bounds k :
  0 ≤ k ≤ col_count → min_date ≤ column_start min_date date_delta k ≤ today.
Proof.
  intros Hk.
  pose proof (date_delta_bounds min_date today col_count past columns) as [H0 H1].
  unfold column_start, date_delta_of.
  pose proof (td_days_bounds
                (k * divide_and_round ((today - min_date) * US_PER_DAY) col_count)
                (today - min_date) ltac:(nia)).
  lia.
Qed.

Lemma graph_layout_closed_form rows rest :
  graph_layout today (rows, col_count) (min_date :: rest)
  = Ok (mkPlot (range 0 col_count)
          (map (λ i, counted (min_date :: rest)
                       (column_start min_date date_delta 1)
                       (column_start min_date date_delta (i + 1)))
               (range 0 col_count))
          rows col_count).
Proof.
  unfold graph_layout. change (index (min_date :: rest) 0) with (Ok min_date).
  rewrite bind_Ok, (date_sub_today min_date today min_valid today_valid past), bind_Ok.
  rewrite (td_truediv_today min_date today col_count min_valid today_valid past columns).
  rewrite bind_Ok.
  destruct (third_date min_date today col_count min_valid today_valid past columns 1
              ltac:(lia)) as (Hthird & Hm1 & d2 & Hd2).
  destruct (third_date min_date today col_count min_valid today_valid past columns 2
              ltac:(lia)) as (_ & Hm2 & d3 & Hd3).
  rewrite Hthird, bind_Ok, Hm1, bind_Ok, Hd2, bind_Ok, Hm2, bind_Ok, Hd3, bind_Ok.
  rewrite (star_counts_closed_form (min_date :: rest) min_date _ col_count
             (column_start min_date date_delta)).
  - reflexivity.
  - intros k Hk.
    apply (lower_date_ok min_date today col_count min_valid today_valid past columns).
    lia.
  - intros j k Hj Hk. unfold column_start.
    pose proof (lower_date_mono min_date today col_count past columns j k ltac:(lia)).
    unfold date_delta_of. lia.
  - lia.
Qed.
End history.

(** X15: the series in closed form.  For a first star that is not after
    today, entry [i] of the plotted series is the number of stars dated
    from the start of column 1 up to, not including, the start of column
    [i + 1]; the x values are 0 to [col_count - 1]. *)
Theorem graph_layout_series today rows col_count min_date rest :
  valid_date min_date → valid_date today → min_date ≤ today →
  0 < col_count < 2 * US_PER_DAY →
  graph_layout today (rows, col_count) (min_date :: rest)
  = Ok (mkPlot (range 0 col_count)
          (map (λ i, counted (min_date :: rest)
                       (column_start min_date
                          (date_delta_of today min_date col_count) 1)
                       (column_start min_date
                          (date_delta_of today min_date col_count) (i + 1)))
               (range 0 col_count))
          rows col_count).
Proof. intros. by apply graph_layout_closed_form. Qed.

Lemma graph_layout_series_witness :
  graph_layout (date 2020 1 11) (24, 5) [date 2020 1 1; date 2020 1 4]
  = Ok (mkPlot (range 0 5)
          (map (λ i, counted [date 2020 1 1; date 2020 1 4]
                       (column_start (date 2020 1 1)
                          (date_delta_of (date 2020 1 11) (date 2020 1 1) 5) 1)
                       (column_start (date 2020 1 1)
                          (date_delta_of (date 2020 1 11) (date 2020 1 1) 5) (i + 1)))
               (range 0 5))
          24 5).
Proof.
  apply graph_layout_series.
  - vm_compute; split; discriminate.
  - vm_compute; split; discriminate.
  - vm_compute; discriminate.
  - unfold US_PER_DAY; lia.
Defined.

Lemma length_filter_impl (P Q : Z → Prop) `{∀ x, Decision (P x)} `{∀ x, Decision (Q x)}
    (l : list Z) :
  (∀ x, P x → Q x) → (length (filter P l) ≤ length (filter Q l))%nat.
Proof.
  intros HPQ. induction l as [|x l IH]; [done|].
  rewrite !filter_cons. destruct (decide (P x)) as [HP|HP].
  - rewrite decide_True by auto. simpl. lia.
  - destruct (decide (Q x)); simpl; lia.
Qed.

(** X16: no entry of the series exceeds the number of stars dated
    before today: a star dated today is never counted, and the series
    never rises above the number of stars. *)
Theorem graph_layout_counts_before_today today rows col_count min_date rest :
  valid_date min_date → valid_date today → min_date ≤ today →
  0 < col_count < 2 * US_PER_DAY →
  ∃ p, graph_layout today (rows, col_count) (min_date :: rest) = Ok p
       ∧ ∀ y, y ∈ plot_y p →
              0 ≤ y ≤ Z.of_nat (length (filter (λ x, x < today) (min_date :: rest)))
              ∧ y ≤ Z.of_nat (length (min_date :: rest)).
Proof.
  intros Hmin Htoday Hpast Hc. eexists.
  split; [by apply graph_layout_closed_form|].
  cbn [plot_y]. intros y Hy. apply list_elem_of_fmap in Hy as (i & -> & Hi).
  apply list_elem_of_lookup in Hi as [j Hj].
  assert (0 ≤ i < col_count) as Hi.
  { unfold range in Hj. rewrite list_lookup_fmap in Hj.
    apply fmap_Some in Hj as (k & Hk & ->). apply lookup_seq in Hk as [-> Hk]. lia. }
  pose proof (column_start_bounds min_date today col_count Hpast Hc (i + 1) ltac:(lia))
    as Hend.
  unfold counted, star_arr.
  set (lo := column_start min_date (date_delta_of today min_date col_count) 1).
  set (hi := column_start min_date (date_delta_of today min_date col_count) (i + 1)) in *.
  assert (∀ x, lo ≤ x ∧ x < hi → x < today) as Himpl by (intros x Hx; lia).
  pose proof (length_filter_impl (λ x, lo ≤ x ∧ x < hi) (λ x, x < today)
                (min_date :: rest) Himpl).
  pose proof (length_filter (λ x, x < today) (min_date :: rest)).
  lia.
Qed.

Lemma graph_layout_counts_before_today_witness :
  ∃ p, graph_layout (date 2020 1 11) (24, 5) [date 2020 1 1; date 2020 1 11] = Ok p
       ∧ ∀ y, y ∈ plot_y p →
              0 ≤ y ≤ Z.of_nat (length (filter (λ x, x < date 2020 1 11)
                                          [date 2020 1 1; date 2020 1 11]))
              ∧ y ≤ Z.of_nat (length [date 2020 1 1; date 2020 1 11]).
Proof.
  apply graph_layout_counts_before_today.
  - vm_compute; split; discriminate.
  - vm_compute; split; discriminate.
  - vm_compute; discriminate.
  - unfold US_PER_DAY; lia.
Defined.

Lemma divide_and_round_0 b : 0 < b → divide_and_round 0 b = 0.
Proof.
  intros Hb. pose proof (divide_and_round_bounds 0 b Hb). nia.
Qed.

(** X17: when the first star is dated today the time span is empty, and
    the series is all zeros, however many stars there are. *)
Theorem graph_layout_first_star_today today rows col_count rest :
  valid_date today → 0 < col_count →
  graph_layout today (rows, col_count) (today :: rest)
  = Ok (mkPlot (range 0 col_count) (replicate (Z.to_nat col_count) 0) rows col_count).
Proof.
  intros Htoday Hc.
  assert (date_add today 0 = Ok today) as Hadd.
  { rewrite date_add_ok; change (td_days 0) with 0; [f_equal; lia|].
    unfold valid_date in Htoday. lia. }
  unfold graph_layout. change (index (today :: rest) 0) with (Ok today).
  rewrite bind_Ok. unfold date_sub. rewrite Z.sub_diag.
  change (timedelta (0 * US_PER_DAY)) with (Ok 0). rewrite bind_Ok.
  unfold td_truediv. destruct (col_count =? 0) eqn:E; [apply Z.eqb_eq in E; lia|].
  rewrite divide_and_round_0 by done.
  change (timedelta 0) with (Ok 0). rewrite bind_Ok.
  change (divide_and_round 0 3) with 0. change (3 =? 0) with false. cbv iota.
  change (timedelta 0) with (Ok 0). rewrite bind_Ok.
  change (td_mul 1 0) with (Ok 0). rewrite bind_Ok, Hadd, bind_Ok.
  change (td_mul 2 0) with (Ok 0). rewrite bind_Ok, Hadd, bind_Ok.
  rewrite (star_counts_closed_form (today :: rest) today 0 col_count (λ _, today)).
  - rewrite bind_Ok. do 2 f_equal. unfold counted. rewrite star_arr_empty.
    unfold range. rewrite Z.sub_0_r. generalize (Z.to_nat col_count). intros n.
    generalize 0%nat. induction n as [|n IH]; intros k; [done|].
    simpl. f_equal. apply IH.
  - intros k Hk. unfold lower_date, td_mul. rewrite Z.mul_0_r.
    change (timedelta 0) with (Ok 0). by rewrite bind_Ok.
  - done.
  - done.
Qed.

Lemma graph_layout_first_star_today_witness :
  graph_layout (date 2020 1 11) (24, 4) [date 2020 1 11; date 2020 1 11]
  = Ok (mkPlot (range 0 4) (replicate (Z.to_nat 4) 0) 24 4).
Proof.
  apply graph_layout_first_star_today; [|lia]. vm_compute; split; discriminate.
Defined.

(** The columns count stars whatever their order. *)
Lemma count_column_Permutation star_dates star_dates' min_date date_delta acc i :
  star_dates ≡ₚ star_dates' →
  count_column star_dates min_date date_delta acc i
  = count_column star_dates' min_date date_delta acc i.
Proof.
  intros Hperm.
  assert (∀ lo hi, length (star_arr star_dates lo hi)
                   = length (star_arr star_dates' lo hi)) as Hlen.
  { intros lo hi. unfold star_arr. by rewrite Hperm. }
  unfold count_column.
  destruct (lower_date min_date date_delta i) as [lo|e]; [|done].
  destruct (upper_date min_date date_delta i) as [hi|e]; [|done].
  destruct (index acc (i - 1)) as [prev|e]; [|done].
  rewrite !bind_Ok. by rewrite Hlen.
Qed.

Lemma for_each_ext {A B} (f g : A → B → result A) xs :
  (∀ a x, f a x = g a x) → ∀ acc, for_each f acc xs = for_each g acc xs.
Proof.
  intros Hfg. induction xs as [|x xs IH]; intros acc; [done|].
  simpl. rewrite Hfg. destruct (g acc x); [apply IH | done].
Qed.

(** X18: only the first date has to be in its place: the result, an
    exception included, is the same for every order of the dates after
    the first. *)
Theorem graph_layout_order_of_rest today size min_date rest rest' :
  rest ≡ₚ rest' →
  graph_layout today size (min_date :: rest)
  = graph_layout today size (min_date :: rest').
Proof.
  intros Hperm. unfold graph_layout. destruct size as [rows cols].
  change (index (min_date :: rest) 0) with (Ok min_date).
  change (index (min_date :: rest') 0) with (Ok min_date).
  rewrite !bind_Ok. unfold star_counts.
  destruct (date_sub today min_date) as [span|e]; [|done]. rewrite !bind_Ok.
  destruct (td_truediv span cols) as [delta|e]; [|done]. rewrite !bind_Ok.
  destruct (td_truediv delta 3) as [third|e]; [|done]. rewrite !bind_Ok.
  destruct (td_mul 1 third) as [d2|e]; [|done]. rewrite !bind_Ok.
  destruct (date_add min_date d2) as [date_2|e]; [|done]. rewrite !bind_Ok.
  destruct (td_mul 2 third) as [d3|e]; [|done]. rewrite !bind_Ok.
  destruct (date_add min_date d3) as [date_3|e]; [|done]. rewrite !bind_Ok.
  rewrite (for_each_ext (count_column (min_date :: rest) min_date delta)
             (count_column (min_date :: rest') min_date delta)); [done|].
  intros acc i. apply count_column_Permutation. by constructor.
Qed.

Lemma graph_layout_order_of_rest_witness :
  graph_layout (date 2020 1 11) (24, 5)
    [date 2020 1 1; date 2020 1 9; date 2020 1 3]
  = graph_layout (date 2020 1 11) (24, 5)
      [date 2020 1 1; date 2020 1 3; date 2020 1 9].
Proof. apply graph_layout_order_of_rest. apply perm_swap. Defined.

(** X19: the two preconditions raise: an empty history raises
    [IndexError] whatever the terminal, and a history on a terminal of no
    columns raises [ZeroDivisionError]. *)
Theorem graph_layout_preconditions today rows col_count d star_dates :
  valid_date today → valid_date d →
  graph_layout today (rows, col_count) [] = Raise IndexError
  ∧ graph_layout today (rows, 0) (d :: star_dates) = Raise ZeroDivisionError.
Proof.
  intros Htoday Hd. split; [done|]. by apply graph_layout_no_columns.
Qed.

Lemma graph_layout_preconditions_witness :
  graph_layout (date 2020 1 11) (24, 80) [] = Raise IndexError
  ∧ graph_layout (date 2020 1 11) (24, 0) [date 2020 1 1] = Raise ZeroDivisionError.
Proof.
  apply graph_layout_preconditions; vm_compute; split; discriminate.
Defined.

(** ** The further properties at concrete inputs *)

Lemma run_Ok {A} (m : M A) w a : (m w).2 = Ok a → m w = ((m w).1, Ok a).
Proof. destruct (m w) as [w' r]. simpl. by intros ->. Qed.

Lemma get_stats_key_errors_witness : has_counts record_y.
Proof.
  apply (proj1 (proj1 (get_stats_key_errors record_y))).
  eexists. vm_compute. reflexivity.
Defined.

Lemma list_layout_returns_witness :
  ∃ groups,
    rendered one_record [0%nat; 0%nat] groups
    ∧ Forall (λ g, length g = 8%nat) groups
    ∧ console (list_layout [0%nat; 0%nat] one_record).1
      = console one_record ++ map column groups
        ++ [column [Rule (lit "bright_yellow")]].
Proof.
  apply (proj2 (list_layout_returns [0%nat; 0%nat] one_record)).
  apply (proj1 (list_layout_returns [0%nat; 0%nat] one_record)).
  vm_compute. reflexivity.
Defined.

Lemma list_layout_stops_at_first_error_witness :
  (list_layout ([0%nat] ++ 1%nat :: [0%nat]) one_record).2
  = Raise (KeyError "stargazers_count")
  ∧ console (list_layout ([0%nat] ++ 1%nat :: [0%nat]) one_record).1
    = console one_record ++ map column [x_y_group (shown (lit "1.5k") STAR)]
  ∧ length [x_y_group (shown (lit "1.5k") STAR)] = length [0%nat].
Proof.
  apply list_layout_stops_at_first_error.
  - constructor; [vm_compute; reflexivity | constructor].
  - vm_compute. reflexivity.
Defined.

Lemma table_layout_rows_witness :
  ∃ rows, console (table_layout [0%nat] one_record).1
          = console one_record ++ [Table table_header rows]
          ∧ Forall2 (row_of one_record) [0%nat] rows.
Proof.
  apply table_layout_rows. apply run_Ok. vm_compute. reflexivity.
Defined.

Lemma layouts_print_nothing_on_error_witness :
  console (table_layout [0%nat; 1%nat] one_record).1 = console one_record.
Proof.
  apply (proj1 (layouts_print_nothing_on_error (λ _, false) [0%nat; 1%nat] one_record
                  (KeyError "stargazers_count"))).
  vm_compute. reflexivity.
Defined.

Lemma table_layout_needs_keys_witness :
  Forall (λ l, tabulable (heap one_record l)) [0%nat].
Proof. apply table_layout_needs_keys. vm_compute. reflexivity. Defined.

Lemma table_layout_raises_after_writing_witness :
  let w := only (delete "name" record_y) in
  (table_layout [0%nat] w).2 = Raise (KeyError "name")
  ∧ heap (table_layout [0%nat] w).1 0%nat !! "language" = Some (VStr (lit "None"))
  ∧ console (table_layout [0%nat] w).1 = console w.
Proof.
  apply (table_layout_raises_after_writing 0%nat [] (only (delete "name" record_y))
           VNone).
  - repeat split; by eexists.
  - intros v Hv. vm_compute in Hv. discriminate.
  - reflexivity.
  - reflexivity.
  - by eexists.
  - reflexivity.
Defined.

Lemma layouts_change_nothing_twice_witness :
  let w1 := (table_layout [0%nat] one_record).1 in
  heap (table_layout [0%nat] w1).1 0%nat !! "language" = heap w1 0%nat !! "language"
  ∧ heap (grid_layout (λ _, false) [0%nat] w1).1 0%nat !! "language"
    = heap w1 0%nat !! "language".
Proof.
  apply (layouts_change_nothing_twice (λ _, false) [0%nat] one_record).
  left. apply run_Ok. vm_compute. reflexivity.
Defined.

Lemma list_layout_after_defaults_witness :
  let w1 := (table_layout [0%nat] one_record).1 in
  ∃ title stats language_col date_range_col body,
    x_y_group_after_defaults
    = [ Rule (lit "bright_yellow"); Markup []; Grid title stats; Markup [];
        Grid language_col date_range_col; Markup []; body; Markup [] ]
    ∧ language_col ≠ text_of (lit "unknown language") []
    ∧ body ≠ Markup (lit "[i green]no description")
    ∧ (∀ v, heap one_record 0%nat !! "language" = Some v → truthy v = false →
            language_col = text_of (lit "None") (lit "bold cyan"))
    ∧ (∀ v, heap one_record 0%nat !! "description" = Some v → truthy v = false →
            body = Plain (text_of (lit "None") (lit "green"))).
Proof.
  apply (list_layout_after_defaults (λ _, false) [0%nat] one_record
           (table_layout [0%nat] one_record).1 0%nat).
  - left. apply run_Ok. vm_compute. reflexivity.
  - by left.
  - vm_compute. reflexivity.
Defined.

Lemma grid_layout_panels_witness :
  ∃ panels, console (grid_layout cjk [0%nat] one_record).1
            = console one_record ++ [Columns 30 panels]
            ∧ Forall2 (panel_shows cjk one_record) [0%nat] panels.
Proof.
  apply grid_layout_panels. apply run_Ok. vm_compute. reflexivity.
Defined.
